(** * kyber_watch: the pool monitor's dedup/cooldown engine, state store and poll runner

    A shallow embedding of [src/pools/pools.monitor.service.ts] (class
    [PoolsMonitorService]) and [src/pools/pools.types.ts].

    - JavaScript numbers are IEEE-754 binary64 values: [spec_float] of the
      Standard Library with precision 53 and maximal exponent 1024, so NaN,
      the infinities and the two zeros are all there.
    - [Map<string, NotifyState>] is a [gmap string NotifyState.t]; the parsed
      snapshot file is a JSON tree whose objects are property lists, in the
      order [Object.entries] enumerates them.
    - [runOnce] is asynchronous: it is split at its [await]s into segments
      that run to the next suspension, and the scheduler is a step relation
      that interleaves cron ticks with the settling of pending promises. *)

From Stdlib Require Import ZArith NArith Bool List Ascii String Floats.SpecFloat.
From stdpp Require Import base option list gmap strings fin_maps pretty.

Set Default Proof Using "Type".
Local Open Scope string_scope.
Local Open Scope list_scope.

(* ===================================================================== *)
(** ** JavaScript numbers *)
(* ===================================================================== *)

Module JS.

Definition number := spec_float.

Definition prec : Z := 53.
Definition emax : Z := 1024.

Definition NaN : number := S754_nan.
Definition zero : number := S754_zero false.
Definition neg_zero : number := S754_zero true.
Definition Infinity : number := S754_infinity false.

(** The number denoted by an integer literal. *)
Definition of_Z (z : Z) : number := binary_normalize prec emax z 0 false.

Definition add (x y : number) : number := SFadd prec emax x y.
Definition sub (x y : number) : number := SFsub prec emax x y.
Definition mul (x y : number) : number := SFmul prec emax x y.

(** [x >= y], [x <= y], [x > y], [x === y]: false as soon as one side is NaN. *)
Definition ge (x y : number) : bool :=
  match SFcompare x y with
  | Some Gt | Some Eq => true
  | _ => false
  end.

Definition le (x y : number) : bool := SFleb x y.

Definition gt (x y : number) : bool :=
  match SFcompare x y with
  | Some Gt => true
  | _ => false
  end.

Definition lt (x y : number) : bool := SFltb x y.

Definition strict_eq (x y : number) : bool := SFeqb x y.

Definition isNaN (x : number) : bool :=
  match x with S754_nan => true | _ => false end.

(** [Number.isFinite] on a value that is a number. *)
Definition isFinite (x : number) : bool :=
  match x with
  | S754_zero _ | S754_finite _ _ _ => true
  | S754_infinity _ | S754_nan => false
  end.

(** [Math.max(x, y)]: NaN if either is NaN, and +0 is larger than -0. *)
Definition Math_max (x y : number) : number :=
  match SFcompare x y with
  | None => NaN
  | Some Lt => y
  | Some Gt => x
  | Some Eq =>
      match x with
      | S754_zero true => y
      | _ => x
      end
  end.

End JS.

Abbreviation number := JS.number.

(* ===================================================================== *)
(** ** Strings: [String.prototype.toLowerCase] on address strings *)
(* ===================================================================== *)

(** Pool addresses are hexadecimal strings; the model lower-cases the
    ASCII letters [A]..[Z] and leaves every other character alone. *)
Definition lower_ascii (c : ascii) : ascii :=
  let n := N_of_ascii c in
  if ((65 <=? n) && (n <=? 90))%N then ascii_of_N (n + 32) else c.

Fixpoint toLowerCase (s : string) : string :=
  match s with
  | EmptyString => EmptyString
  | String c r => String (lower_ascii c) (toLowerCase r)
  end.

(* ===================================================================== *)
(** ** Data model ([pools.types.ts], [MonitorConfig], [NotifyState]) *)
(* ===================================================================== *)

Module PoolToken.
Record t := mk { address : string; symbol : string; logoURI : string }.
End PoolToken.

Module PoolChain.
Record t := mk { id : number; name : string; logoUrl : string }.
End PoolChain.

Module Pool.
Record t := mk {
  address : string;
  earnFee : number;
  egUsd : number;
  exchange : string;
  feeTier : number;
  volume : number;
  liquidity : number;
  tvl : number;
  apr : number;
  allApr : number;
  lpApr : number;
  kemApr : number;
  tokens : list PoolToken.t;
  chain : PoolChain.t
}.
End Pool.

Module MonitorConfig.
Record t := mk {
  apiBaseUrl : string;
  chainIds : string;
  pages : number;
  limit : number;
  minApr : number;
  minEarnFee : number;
  minVolume : number;
  larkWebhookUrl : string;
  notifyCooldownMs : number;
  notifyStorePath : string
}.
End MonitorConfig.

Module NotifyState.
Record t := mk { notifiedAt : number; volume : number }.
End NotifyState.

(** [private readonly notifyState = new Map<string, NotifyState>()] *)
Abbreviation Store := (gmap string NotifyState.t).

(** [private readonly volumeGrowthRatioForRenotify = 0.2]: the binary64
    value nearest to 0.2, which is 0x1.999999999999ap-3. *)
Definition volumeGrowthRatioForRenotify : number :=
  S754_finite false 7205759403792794 (-55).

(* ===================================================================== *)
(** ** Threshold filter and cooldown engine *)
(* ===================================================================== *)

Section Engine.
Variable config : MonitorConfig.t.

(** [matches(pool)], lines 137-143. *)
Definition matches (pool : Pool.t) : bool :=
  JS.ge (Pool.apr pool) (MonitorConfig.minApr config) &&
  JS.ge (Pool.earnFee pool) (MonitorConfig.minEarnFee config) &&
  JS.ge (Pool.volume pool) (MonitorConfig.minVolume config).

(** [volumeIncreaseThreshold] of lines 154-156. *)
Definition volumeIncreaseThreshold (state : NotifyState.t) : number :=
  let volumeGrowthBase := JS.Math_max (NotifyState.volume state) JS.zero in
  JS.mul volumeGrowthBase (JS.add (JS.of_Z 1) volumeGrowthRatioForRenotify).

(** The callback given to [pools.filter] in [applyCooldown], lines 147-166. *)
Definition cooldownKeep (now : number) (notifyState : Store) (pool : Pool.t) : bool :=
  let key := toLowerCase (Pool.address pool) in
  match notifyState !! key with
  | None => true
  | Some state =>
      if JS.ge (Pool.volume pool) (volumeIncreaseThreshold state) then true
      else if JS.le (MonitorConfig.notifyCooldownMs config) JS.zero then false
      else JS.ge (JS.sub now (NotifyState.notifiedAt state))
                 (MonitorConfig.notifyCooldownMs config)
  end.

(** [applyCooldown(pools)], lines 145-167; [now] is the [Date.now()] of line 146. *)
Definition applyCooldown (now : number) (notifyState : Store) (pools : list Pool.t)
  : list Pool.t :=
  List.filter (cooldownKeep now notifyState) pools.

End Engine.

(* ===================================================================== *)
(** ** JSON values and the snapshot file *)
(* ===================================================================== *)

#[local] Set Warnings "-register-all".

(** What [JSON.parse] returns. An object is the list of its own properties
    in the order [Object.entries] enumerates them. *)
Inductive json :=
| JNull
| JBool (b : bool)
| JNum (x : number)
| JStr (s : string)
| JArr (items : list json)
| JObj (props : list (string * json)).

(** A text file is represented by what [JSON.parse] makes of its content:
    [None] when it throws a [SyntaxError]. *)
Definition Text := option json.

(** [value.name] on a parsed object. *)
Fixpoint getProp (name : string) (props : list (string * json)) : option json :=
  match props with
  | [] => None
  | (k, v) :: rest => if String.eqb k name then Some v else getProp name rest
  end.

(** [Number.isFinite(v)] on an arbitrary, possibly absent, value. *)
Definition isFiniteValue (v : option json) : option number :=
  match v with
  | Some (JNum x) => if JS.isFinite x then Some x else None
  | _ => None
  end.

Definition indexed {A} (l : list A) : list (string * A) :=
  imap (fun i x => (pretty i, x)) l.

(** [Object.entries(data)]: [None] when it throws (on [null]). A primitive
    number or boolean has no entries; a string and an array enumerate
    their indices. *)
Definition Object_entries (data : json) : option (list (string * json)) :=
  match data with
  | JNull => None
  | JBool _ | JNum _ => Some []
  | JStr s =>
      Some (indexed (List.map (fun c => JStr (String c EmptyString))
                              (list_ascii_of_string s)))
  | JArr items => Some (indexed items)
  | JObj props => Some props
  end.

(** What a number becomes on its way through [JSON.stringify] and back
    through [JSON.parse]: a finite number is printed with enough digits to
    read back as itself, except that -0 is printed as [0]; NaN and the
    infinities are printed as [null]. *)
Definition json_of_number (x : number) : json :=
  match x with
  | S754_zero _ => JNum JS.zero
  | S754_finite _ _ _ => JNum x
  | S754_infinity _ | S754_nan => JNull
  end.

Definition json_of_state (r : NotifyState.t) : json :=
  JObj [("notifiedAt", json_of_number (NotifyState.notifiedAt r));
        ("volume", json_of_number (NotifyState.volume r))].

(** [Object.fromEntries(this.notifyState)] as a property list. *)
Definition snapshot_entries (st : Store) : list (string * json) :=
  List.map (fun kr => (kr.1, json_of_state kr.2)) (map_to_list st).

(** The text [JSON.stringify(Object.fromEntries(this.notifyState), null, 2)]. *)
Definition payload_of (st : Store) : Text := Some (JObj (snapshot_entries st)).

(** The store file and its temporary sibling [${filePath}.tmp]. *)
Record Disk := mkDisk { store_file : option Text; tmp_file : option Text }.

(* ===================================================================== *)
(** ** Observable effects *)
(* ===================================================================== *)

Inductive Event :=
| LogSkipRun                          (* 'skip run: previous run still in progress.' *)
| LogRunStart
| CallFetchPools                      (* fetchPools(): the GETs of the pages *)
| LogFetched (n : nat)
| LogMatched (n : nat)
| LogAfterCooldown (n : nat)
| LogNoPools
| WarnNoWebhook                       (* 'LARK_WEBHOOK_URL is not set. Skipping notify.' *)
| PostWebhook (batch : list Pool.t)   (* fetch(larkWebhookUrl, {method: 'POST', ...}) *)
| LogNotified (n : nat)
| CallPersist                         (* persistNotifiedState() is entered *)
| FsMkdir
| FsWriteTmp (payload : Text)
| FsRename
| LogRunFailed
| LogRunEnd (elapsedMs : number)
| LogLoaded (n : nat)
| WarnLoadFailed.

(* ===================================================================== *)
(** ** State store: load and persist *)
(* ===================================================================== *)

(** The body of the [for ... of Object.entries(data)] loop, lines 177-197. *)
Definition loadEntry (st : Store) (entry : string * json) : Store :=
  let '(address, value) := entry in
  match value with
  | JNum v =>
      if JS.isFinite v
      then <[toLowerCase address := NotifyState.mk v JS.zero]> st
      else st
  | JObj props =>
      match isFiniteValue (getProp "notifiedAt" props),
            isFiniteValue (getProp "volume" props) with
      | Some at_, Some vol => <[toLowerCase address := NotifyState.mk at_ vol]> st
      | _, _ => st
      end
  | JNull | JBool _ | JStr _ | JArr _ => st
  end.

(** How [fs.readFile(filePath, 'utf-8')] settles. *)
Inductive ReadResult :=
| ReadENOENT                 (* rejects, code 'ENOENT' *)
| ReadError                  (* rejects with any other error *)
| ReadText (content : Text).

Definition readFile (d : Disk) : ReadResult :=
  match store_file d with
  | None => ReadENOENT
  | Some content => ReadText content
  end.

(** [loadNotifiedState()], lines 169-204. *)
Definition loadNotifiedState (r : ReadResult) (st : Store) : Store * list Event :=
  match r with
  | ReadENOENT => (st, [])
  | ReadError => (st, [WarnLoadFailed])
  | ReadText None => (st, [WarnLoadFailed])
  | ReadText (Some data) =>
      match Object_entries data with
      | None => (st, [WarnLoadFailed])
      | Some entries =>
          let st' := foldl loadEntry st entries in
          (st', [LogLoaded (size st')])
      end
  end.

(** Where [persistNotifiedState] may throw. *)
Inductive FsFault := MkdirFails | WriteFails | RenameFails.

(** [persistNotifiedState()], lines 206-214: the new disk, whether it
    returned normally, and the file-system calls made. A failed write leaves
    an unreadable temporary file. *)
Definition persistNotifiedState (fault : option FsFault) (st : Store) (d : Disk)
  : Disk * bool * list Event :=
  let payload := payload_of st in
  match fault with
  | Some MkdirFails => (d, false, [FsMkdir])
  | Some WriteFails =>
      (mkDisk (store_file d) (Some None), false, [FsMkdir; FsWriteTmp payload])
  | Some RenameFails =>
      (mkDisk (store_file d) (Some payload), false, [FsMkdir; FsWriteTmp payload; FsRename])
  | None =>
      (mkDisk (Some payload) None, true, [FsMkdir; FsWriteTmp payload; FsRename])
  end.

(* ===================================================================== *)
(** ** Poll runner: [runOnce] and the scheduler *)
(* ===================================================================== *)

(** How the POST to the webhook settles: a response with [ok], a response
    without it, or a rejected [fetch]. *)
Inductive WebhookResult := WebhookOk | WebhookBadStatus | WebhookRejected.

(** A [runOnce] call suspended at one of its [await]s. *)
Inductive Pending :=
| AwaitFetchPools (startedAt : number)                     (* line 70 *)
| AwaitWebhook (startedAt : number) (deduped : list Pool.t)  (* line 81, inside notifyLark *)
| AwaitPersist (startedAt : number).                       (* line 90 *)

(** The mutable fields of the service, and the disk. *)
Record World := mkWorld { running : bool; notifyState : Store; disk : Disk }.

(** What the environment supplies when a pending promise settles: the
    outcome of the external call and the readings of [Date.now()] the
    resumed code takes. [fetched = None]: [fetchPools] threw. *)
Record Settle := mkSettle {
  fetched : option (list Pool.t);
  webhook : WebhookResult;
  fsFault : option FsFault;
  tCooldown : number;      (* Date.now() of line 146 *)
  tNotified : number;      (* Date.now() of line 83 *)
  tEnd : number            (* Date.now() of line 94 *)
}.

Definition Outcome : Type := World * option Pending * list Event.

Section Runner.
Variable config : MonitorConfig.t.

(** The [finally] block, lines 93-97. *)
Definition run_end (startedAt tEnd : number) (w : World) : Outcome :=
  (mkWorld false (notifyState w) (disk w), None, [LogRunEnd (JS.sub tEnd startedAt)]).

(** The [catch] block, then the [finally] block. *)
Definition run_failed (startedAt tEnd : number) (w : World) : Outcome :=
  let '(w', k, evs) := run_end startedAt tEnd w in
  (w', k, LogRunFailed :: evs).

(** Lines 60-70: the guard, the flag and the call of [fetchPools]. *)
Definition runOnce_enter (startedAt : number) (w : World) : Outcome :=
  if running w then (w, None, [LogSkipRun])
  else (mkWorld true (notifyState w) (disk w),
        Some (AwaitFetchPools startedAt),
        [LogRunStart; CallFetchPools]).

(** The loop of lines 84-89. *)
Definition recordNotified (now : number) (deduped : list Pool.t) (st : Store) : Store :=
  foldl (fun st pool =>
           <[toLowerCase (Pool.address pool) := NotifyState.mk now (Pool.volume pool)]> st)
        st deduped.

(** Lines 82-90, up to the suspension inside [persistNotifiedState]. *)
Definition after_notify (startedAt now : number) (deduped : list Pool.t) (w : World)
  : Outcome :=
  (mkWorld (running w) (recordNotified now deduped (notifyState w)) (disk w),
   Some (AwaitPersist startedAt),
   [LogNotified (length deduped); CallPersist]).

(** Lines 70-81: [fetchPools] has settled; filter, dedup, and enter
    [notifyLark] (lines 222-237). *)
Definition after_fetch (startedAt : number) (s : Settle) (w : World) : Outcome :=
  match fetched s with
  | None => run_failed startedAt (tEnd s) w
  | Some pools =>
      let filtered := List.filter (matches config) pools in
      let deduped := applyCooldown config (tCooldown s) (notifyState w) filtered in
      let logs := [LogFetched (length pools); LogMatched (length filtered);
                   LogAfterCooldown (length deduped)] in
      if Nat.eqb (length deduped) 0 then
        let '(w', k, evs) := run_end startedAt (tEnd s) w in
        (w', k, logs ++ LogNoPools :: evs)
      else if String.eqb (MonitorConfig.larkWebhookUrl config) "" then
        let '(w', k, evs) := after_notify startedAt (tNotified s) deduped w in
        (w', k, logs ++ WarnNoWebhook :: evs)
      else
        (w, Some (AwaitWebhook startedAt deduped), logs ++ [PostWebhook deduped])
  end.

(** Lines 239-243 of [notifyLark], then the continuation of [runOnce]. *)
Definition after_webhook (startedAt : number) (deduped : list Pool.t) (s : Settle)
    (w : World) : Outcome :=
  match webhook s with
  | WebhookOk => after_notify startedAt (tNotified s) deduped w
  | WebhookBadStatus | WebhookRejected => run_failed startedAt (tEnd s) w
  end.

(** [persistNotifiedState] has settled. *)
Definition after_persist (startedAt : number) (s : Settle) (w : World) : Outcome :=
  let '(d', ok, fsevs) := persistNotifiedState (fsFault s) (notifyState w) (disk w) in
  let w1 := mkWorld (running w) (notifyState w) d' in
  let '(w', k, evs) :=
    if ok then run_end startedAt (tEnd s) w1 else run_failed startedAt (tEnd s) w1 in
  (w', k, fsevs ++ evs).

(** Resume a suspended call. *)
Definition resume (s : Settle) (p : Pending) (w : World) : Outcome :=
  match p with
  | AwaitFetchPools startedAt => after_fetch startedAt s w
  | AwaitWebhook startedAt deduped => after_webhook startedAt deduped s w
  | AwaitPersist startedAt => after_persist startedAt s w
  end.

(** Run a call until it no longer waits for anything, or the fuel is spent. *)
Fixpoint settle (fuel : nat) (s : Settle) (k : option Pending) (w : World) : Outcome :=
  match k, fuel with
  | None, _ => (w, None, [])
  | Some p, O => (w, Some p, [])
  | Some p, S n =>
      let '(w', k', evs) := resume s p w in
      let '(w'', k'', evs') := settle n s k' w' in
      (w'', k'', evs ++ evs')
  end.

(** One whole [runOnce] call, run without interleaving. *)
Definition runOnce (startedAt : number) (s : Settle) (w : World) : Outcome :=
  let '(w1, k1, evs1) := runOnce_enter startedAt w in
  let '(w2, k2, evs2) := settle 3 s k1 w1 in
  (w2, k2, evs1 ++ evs2).

(** The event loop: the service and the calls of [runOnce] in flight. *)
Record Sys := mkSys { world : World; pending : list Pending }.

(** What the event loop delivers: a cron tick, which calls [runOnce]
    (with the [Date.now()] of line 65), or the settling of the promise a
    suspended call waits for. *)
Inductive Input :=
| Tick (t : number)
| Settles (p : Pending) (s : Settle).

Inductive step : Sys -> Input -> list Event -> Sys -> Prop :=
| step_tick t w ps w' k evs :
    runOnce_enter t w = (w', k, evs) ->
    step (mkSys w ps) (Tick t) evs (mkSys w' (option_list k ++ ps))
| step_resume s p w ps1 ps2 w' k evs :
    resume s p w = (w', k, evs) ->
    step (mkSys w (ps1 ++ p :: ps2)) (Settles p s) evs
         (mkSys w' (ps1 ++ option_list k ++ ps2)).

(** [onModuleInit]: the store is loaded into the empty map; [runOnce] and
    the cron ticks follow as steps. *)
Definition boot (readFails : bool) (d : Disk) : Sys * list Event :=
  let r := if readFails then ReadError else readFile d in
  let '(st, evs) := loadNotifiedState r ∅ in
  (mkSys (mkWorld false st d) [], evs).

Inductive reachable : Sys -> Prop :=
| reach_boot readFails d : reachable (boot readFails d).1
| reach_step sys i evs sys' : reachable sys -> step sys i evs sys' -> reachable sys'.

(** The notify-state maps that load and upsert operations can build. *)
Inductive store_built : Store -> Prop :=
| built_empty : store_built ∅
| built_load r st : store_built st -> store_built (loadNotifiedState r st).1
| built_upsert now pool st :
    store_built st ->
    store_built (<[toLowerCase (Pool.address pool) :=
                     NotifyState.mk now (Pool.volume pool)]> st).

End Runner.

(* ===================================================================== *)
(** ** Concrete configurations and pools *)
(* ===================================================================== *)

(** The configuration the constructor builds (lines 34-50) when no
    environment variable is set. *)
Definition defaultConfig : MonitorConfig.t :=
  MonitorConfig.mk
    "https://earn-service.kyberswap.com/api/v1/explorer/pools"
    "8453,56"
    (JS.of_Z 5) (JS.of_Z 10)
    (JS.of_Z 3000) (JS.of_Z 1000) (JS.of_Z 100000)
    ""
    (JS.of_Z (1 * 24 * 60 * 60000))
    "data/pool-notify.json".

(** The same with [LARK_WEBHOOK_URL] and [POOL_NOTIFY_COOLDOWN_MS] set. *)
Definition configWith (url : string) (cooldownMs : number) : MonitorConfig.t :=
  MonitorConfig.mk
    (MonitorConfig.apiBaseUrl defaultConfig) (MonitorConfig.chainIds defaultConfig)
    (MonitorConfig.pages defaultConfig) (MonitorConfig.limit defaultConfig)
    (MonitorConfig.minApr defaultConfig) (MonitorConfig.minEarnFee defaultConfig)
    (MonitorConfig.minVolume defaultConfig)
    url cooldownMs
    (MonitorConfig.notifyStorePath defaultConfig).

(** A pool on Base with the given address and metrics. *)
Definition samplePool (address : string) (apr earnFee volume : number) : Pool.t :=
  Pool.mk address earnFee JS.zero "uniswapv3" JS.zero volume JS.zero JS.zero
          apr JS.zero JS.zero JS.zero []
          (PoolChain.mk (JS.of_Z 8453) "base" "").

Definition emptyDisk : Disk := mkDisk None None.

Definition idle (st : Store) (d : Disk) : World := mkWorld false st d.

(* ===================================================================== *)
(** ** Reading of the snapshot format, in the words of the specification *)
(* ===================================================================== *)

(** The record a snapshot value denotes: a finite bare number [n] (the
    legacy format) denotes [{notifiedAt: n, volume: 0}]; an object whose
    [notifiedAt] and [volume] are finite numbers denotes these two; anything
    else denotes nothing. [loadEntry] is compared with it below. *)
Definition entry_record (value : json) : option NotifyState.t :=
  match value with
  | JNum n => if JS.isFinite n then Some (NotifyState.mk n JS.zero) else None
  | JObj props =>
      match getProp "notifiedAt" props, getProp "volume" props with
      | Some (JNum t), Some (JNum v) =>
          if JS.isFinite t && JS.isFinite v then Some (NotifyState.mk t v) else None
      | _, _ => None
      end
  | _ => None
  end.

(** The record found under key [k] after the entries have been read in
    order into a store that held [prior] there: the last entry that denotes
    a record and whose lower-cased address is [k] wins. *)
Fixpoint loaded_record (k : string) (entries : list (string * json))
    (prior : option NotifyState.t) : option NotifyState.t :=
  match entries with
  | [] => prior
  | (address, value) :: rest =>
      loaded_record k rest
        (if String.eqb (toLowerCase address) k
         then match entry_record value with Some r => Some r | None => prior end
         else prior)
  end.

(** Equality of numbers up to the sign of zero: -0 is written as [0]. *)
Definition normalize_zero (x : number) : number :=
  match x with
  | S754_zero _ => JS.zero
  | _ => x
  end.

Definition normalize_state (r : NotifyState.t) : NotifyState.t :=
  NotifyState.mk (normalize_zero (NotifyState.notifiedAt r))
                 (normalize_zero (NotifyState.volume r)).

Definition finite_state (r : NotifyState.t) : bool :=
  JS.isFinite (NotifyState.notifiedAt r) && JS.isFinite (NotifyState.volume r).

(** Every key is its own lower-case form. *)
Definition keys_normalized (st : Store) : Prop :=
  forall k r, st !! k = Some r -> toLowerCase k = k.

(** Every record holds finite numbers only. *)
Definition records_finite (st : Store) : Prop :=
  forall k r, st !! k = Some r -> finite_state r = true.

(** The same numbers, as [===] compares them. *)
Definition same_state (r1 r2 : NotifyState.t) : Prop :=
  JS.strict_eq (NotifyState.notifiedAt r1) (NotifyState.notifiedAt r2) = true /\
  JS.strict_eq (NotifyState.volume r1) (NotifyState.volume r2) = true.

(** The key discipline of the store: every key is the lower-case form of
    an address, no two keys agree up to case, and the snapshot written from
    the store is keyed by lower-case strings, each once. *)
Definition lowercase_keyed (st : Store) : Prop :=
  (forall k r, st !! k = Some r ->
     toLowerCase k = k /\ exists address, k = toLowerCase address) /\
  (forall k1 k2, is_Some (st !! k1) -> is_Some (st !! k2) ->
     toLowerCase k1 = toLowerCase k2 -> k1 = k2) /\
  (forall k j, (k, j) ∈ snapshot_entries st -> toLowerCase k = k) /\
  NoDup (fst <$> snapshot_entries st).

(** The events in which a cycle reaches out: the fetch of the pools, the
    POST to the webhook, and the persisting of the store with its
    file-system calls. *)
Definition performs_fetch (e : Event) : bool :=
  match e with CallFetchPools => true | _ => false end.

Definition performs_notify (e : Event) : bool :=
  match e with PostWebhook _ => true | _ => false end.

Definition performs_persist (e : Event) : bool :=
  match e with
  | CallPersist | FsMkdir | FsWriteTmp _ | FsRename => true
  | _ => false
  end.

Definition performs_io (e : Event) : bool :=
  performs_fetch e || performs_notify e || performs_persist e.

(** Single flight: no call of [runOnce] is in progress and the flag is
    down, or exactly one is and the flag is up. *)
Definition single_flight (sys : Sys) : Prop :=
  (pending sys = [] /\ running (world sys) = false) \/
  (exists p, pending sys = [p] /\ running (world sys) = true).

(* ===================================================================== *)
(** ** Configuration from the environment (constructor, [readNumber]) *)
(* ===================================================================== *)

Section Environment.
(** [Number(raw)], the conversion of a string to a number. *)
Variable Number_of_string : string -> number.
(** [process.env]: the variables that are set, each to a string. *)
Variable env : gmap string string.

(** [readNumber(envKey, fallback)], lines 330-337. [!raw] holds for an
    unset variable and for the empty string. *)
Definition readNumber (envKey : string) (fallback : number) : number :=
  match env !! envKey with
  | None => fallback
  | Some raw =>
      if String.eqb raw "" then fallback
      else
        let value := Number_of_string raw in
        if JS.isFinite value then value else fallback
  end.

(** [process.env[envKey] ?? fallback]: only an unset variable falls back. *)
Definition envOr (envKey : string) (fallback : string) : string :=
  match env !! envKey with
  | None => fallback
  | Some raw => raw
  end.

(** The [config] the constructor builds, lines 33-51. *)
Definition constructor_config : MonitorConfig.t :=
  MonitorConfig.mk
    (envOr "KYBER_EARN_API_BASE_URL"
           "https://earn-service.kyberswap.com/api/v1/explorer/pools")
    (envOr "KYBER_CHAIN_IDS" "8453,56")
    (readNumber "POOL_PAGES" (JS.of_Z 5))
    (readNumber "POOL_LIMIT" (JS.of_Z 10))
    (readNumber "POOL_MIN_APR" (JS.of_Z 3000))
    (readNumber "POOL_MIN_EARN_FEE" (JS.of_Z 1000))
    (readNumber "POOL_MIN_VOLUME" (JS.of_Z 100000))
    (envOr "LARK_WEBHOOK_URL" "")
    (readNumber "POOL_NOTIFY_COOLDOWN_MS" (JS.of_Z (1 * 24 * 60 * 60000)))
    (envOr "POOL_NOTIFY_STORE_PATH" "data/pool-notify.json").

End Environment.

(* ===================================================================== *)
(** ** Fetch client: [fetchPools] *)
(* ===================================================================== *)

(** [PoolsApiResponse] of [pools.types.ts]. [data] is [body.data?.pools]:
    [None] when [data] or its [pools] is missing. *)
Module PoolsApiResponse.
Record t := mk { code : number; message : string; data : option (list Pool.t) }.
End PoolsApiResponse.

(** How the GET of one page settles. A body is as [PoolsApiResponse]
    declares it, but for its pools, which may be something that is no
    array. *)
Inductive PageResult :=
| PageRejected        (* fetch(url) or response.json() rejects, or the body is null *)
| PageNotOk           (* !response.ok *)
| PageNotIterable     (* body.data.pools is there and cannot be spread *)
| PageBody (body : PoolsApiResponse.t).

(** What [fetchPools] does to the outside: the GET of a page, and the wait
    between pages. *)
Inductive FetchEvent :=
| HttpGet (page : number)
| Delay (ms : number).

(** How a run of the loop ends; [FetchUnfinished] when the fuel is spent. *)
Inductive FetchOutcome :=
| FetchReturns (pools : list Pool.t)
| FetchThrows
| FetchUnfinished.

(** The pools a page carries, [None] when it carries none: the request
    is rejected, the response is not ok, [body.code !== 0], there is no
    [body.data.pools] (lines 117-125), or it is not an array and the spread
    of line 127 throws a [TypeError]. *)
Definition page_pools (r : PageResult) : option (list Pool.t) :=
  match r with
  | PageBody body =>
      if JS.strict_eq (PoolsApiResponse.code body) JS.zero
      then PoolsApiResponse.data body
      else None
  | PageRejected | PageNotOk | PageNotIterable => None
  end.

(** The pools [pools.push(...body.data.pools)] of line 127 appends, [None]
    when the page carries none or the call throws a [RangeError]: the spread
    passes every pool as an argument, and a call takes at most
    [argumentLimit] of them (a bound of the engine). *)
Definition page_pushed (argumentLimit : nat) (r : PageResult) : option (list Pool.t) :=
  match page_pools r with
  | Some more => if (argumentLimit <? length more)%nat then None else Some more
  | None => None
  end.

Section FetchPools.
Variable config : MonitorConfig.t.
(** The answer to the request for a page. *)
Variable respond : number -> PageResult.
(** The largest number of arguments a call takes in the engine. *)
Variable argumentLimit : nat.

(** The [for] loop of lines 103-132, from the test [page <= pages] on.
    The counter is a number, incremented by [page += 1]. A page that
    carries no pools, or more than [push] takes, ends the loop with a
    throw. *)
Fixpoint fetchLoop (fuel : nat) (page : number) (pools : list Pool.t)
  : FetchOutcome * list FetchEvent :=
  match fuel with
  | O => (FetchUnfinished, [])
  | S fuel' =>
      if JS.le page (MonitorConfig.pages config) then
        match page_pushed argumentLimit (respond page) with
        | None => (FetchThrows, [HttpGet page])
        | Some more =>
            let waits :=
              if JS.lt page (MonitorConfig.pages config)
              then [Delay (JS.of_Z 5000)] else [] in
            let '(outcome, evs) :=
              fetchLoop fuel' (JS.add page (JS.of_Z 1)) (pools ++ more) in
            (outcome, HttpGet page :: waits ++ evs)
        end
      else (FetchReturns pools, [])
  end.

(** [fetchPools()], lines 100-135. *)
Definition fetchPools (fuel : nat) : FetchOutcome * list FetchEvent :=
  fetchLoop fuel (JS.of_Z 1) [].

End FetchPools.

(** The pages requested, in order. *)
Fixpoint requested (evs : list FetchEvent) : list number :=
  match evs with
  | [] => []
  | HttpGet page :: rest => page :: requested rest
  | Delay _ :: rest => requested rest
  end.

(** The number of waits. *)
Fixpoint waited (evs : list FetchEvent) : nat :=
  match evs with
  | [] => 0
  | HttpGet _ :: rest => waited rest
  | Delay _ :: rest => S (waited rest)
  end.

(** What [runOnce] sees of a call of [fetchPools] that has settled. *)
Definition fetched_of (outcome : FetchOutcome) : option (list Pool.t) :=
  match outcome with
  | FetchReturns pools => Some pools
  | FetchThrows | FetchUnfinished => None
  end.

(* ===================================================================== *)
(** ** Notifier: the card *)
(* ===================================================================== *)

Inductive CardElement :=
| Markdown (content : string)      (* { tag: 'markdown', content } *)
| Hr.                              (* { tag: 'hr' } *)

Record LarkCard := mkCard {
  wide_screen_mode : bool;
  header_template : string;
  header_title : string;
  elements : list CardElement
}.

Definition newline : string := String (ascii_of_nat 10) EmptyString.

Definition number_div (x y : number) : number := SFdiv JS.prec JS.emax x y.

(** [Math.abs]. *)
Definition Math_abs (x : number) : number := SFabs x.

Section Card.
(** [value.toFixed(1)]. *)
Variable toFixed1 : number -> string.
(** A number inside a template literal. *)
Variable String_of_number : number -> string.
Variable config : MonitorConfig.t.

(** [formatFixed(value)], lines 326-328. *)
Definition formatFixed (value : number) : string := toFixed1 value.

(** [formatPercent(value)], lines 308-310. *)
Definition formatPercent (value : number) : string :=
  (formatFixed (number_div value (JS.of_Z 100)) ++ "%")%string.

(** [formatKmb(value)], lines 312-324. *)
Definition formatKmb (value : number) : string :=
  let abs := Math_abs value in
  if JS.ge abs (JS.of_Z 1000000000) then
    (formatFixed (number_div value (JS.of_Z 1000000000)) ++ "B")%string
  else if JS.ge abs (JS.of_Z 1000000) then
    (formatFixed (number_div value (JS.of_Z 1000000)) ++ "M")%string
  else if JS.ge abs (JS.of_Z 1000) then
    (formatFixed (number_div value (JS.of_Z 1000)) ++ "K")%string
  else formatFixed value.

(** [buildPoolLink(pool)], lines 297-306; [case] compares with [===]. *)
Definition buildPoolLink (pool : Pool.t) : option string :=
  let id := PoolChain.id (Pool.chain pool) in
  if JS.strict_eq id (JS.of_Z 8453) then
    Some ("https://basescan.org/address/" ++ Pool.address pool)%string
  else if JS.strict_eq id (JS.of_Z 56) then
    Some ("https://bscscan.com/address/" ++ Pool.address pool)%string
  else None.

(** [formatPoolMarkdown(pool)], lines 280-295. A link that is the empty
    string would count as missing. *)
Definition formatPoolMarkdown (pool : Pool.t) : string :=
  let pair := String.concat "/" (List.map PoolToken.symbol (Pool.tokens pool)) in
  let linkText :=
    match buildPoolLink pool with
    | Some link =>
        if String.eqb link "" then "link: N/A" else ("[link](" ++ link ++ ")")%string
    | None => "link: N/A"
    end in
  String.concat newline
    [("**" ++ pair ++ "**")%string;
     ("- chain: " ++ PoolChain.name (Pool.chain pool))%string;
     ("- exchange: " ++ Pool.exchange pool)%string;
     ("- apr: " ++ formatPercent (Pool.apr pool))%string;
     ("- earnFee: " ++ formatKmb (Pool.earnFee pool))%string;
     ("- volume: " ++ formatKmb (Pool.volume pool))%string;
     ("- tvl: " ++ formatKmb (Pool.tvl pool))%string;
     ("- address: `" ++ Pool.address pool ++ "`")%string;
     ("- " ++ linkText)%string].

(** The last element of the card, lines 260-263. *)
Definition filtersLine : CardElement :=
  Markdown ("Filters: apr>=" ++ String_of_number (MonitorConfig.minApr config)
            ++ ", earnFee>=" ++ String_of_number (MonitorConfig.minEarnFee config)
            ++ ", volume>=" ++ String_of_number (MonitorConfig.minVolume config))%string.

(** [buildLarkCard(pools)], lines 245-278. *)
Definition buildLarkCard (pools : list Pool.t) : LarkCard :=
  let elements :=
    flat_map (fun pool => [Markdown (formatPoolMarkdown pool); Hr]) pools in
  let elements :=
    if (0 <? length elements)%nat then removelast elements else elements in
  let elements := elements ++ [filtersLine] in
  mkCard true "blue" ("Pools matched: " ++ pretty (length pools))%string elements.

End Card.

(** The value of the loop counter [i] increments after [page]. *)
Fixpoint pageAfter (i : nat) (page : number) : number :=
  match i with
  | O => page
  | S i' => pageAfter i' (JS.add page (JS.of_Z 1))
  end.

(** The pools the answer to the request for [page] contributes. *)
Definition contribution (respond : number -> PageResult) (page : number) : list Pool.t :=
  match page_pools (respond page) with
  | Some more => more
  | None => []
  end.

(** The number of binary digits of a positive integer. *)
Definition bits (q : positive) : Z := Z.pos (digits2_pos q).

(** [q * 2^z] for [z >= 0]. *)
Definition shiftLeft (q : positive) (z : Z) : positive :=
  match z with
  | Zpos p => Pos.iter xO q p
  | _ => q
  end.

(** A mantissa with nothing rounded away. *)
Definition exactRecord (m : positive) : shr_record :=
  {| shr_m := Z.pos m; shr_r := false; shr_s := false |}.

(** The number of page [i]. *)
Definition pageNumber (i : nat) : number := JS.of_Z (Z.of_nat i).

(** The elements [flatMap] makes of the pools: a block and a rule each. *)
Definition cardBlocks (toFixed1 : number -> string) (pools : list Pool.t)
  : list CardElement :=
  flat_map (fun pool => [Markdown (formatPoolMarkdown toFixed1 pool); Hr]) pools.

(** Case analysis on the comparisons of exponents and mantissas. *)
Ltac order_cases :=
  repeat match goal with
         | |- context [(?a ?= ?b)%Z] =>
             let H := fresh in destruct (Z.compare_spec a b) as [H|H|H]
         | H : context [(?a ?= ?b)%Z] |- _ =>
             let H' := fresh in destruct (Z.compare_spec a b) as [H'|H'|H']
         | |- context [(?a ?= ?b)%positive] =>
             let H := fresh in destruct (Pos.compare_spec a b) as [H|H|H]
         | H : context [(?a ?= ?b)%positive] |- _ =>
             let H' := fresh in destruct (Pos.compare_spec a b) as [H'|H'|H']
         end.

(* ===================================================================== *)
(** ** The filter on an unchecked pool *)
(* ===================================================================== *)

(** The cast [as PoolsApiResponse] of line 122 checks nothing: [matches]
    receives the items of [body.data.pools] as [response.json()] made them,
    and lines 139-141 read three properties of each and compare them with
    [>=] to a number of the configuration. *)

Section Unchecked.
(** [StringToNumber], the conversion of a string to a number. *)
Variable Number_of_string : string -> number.
(** [Number::toString], the conversion of a number to a string. *)
Variable String_of_number : number -> string.
Variable config : MonitorConfig.t.





End Unchecked.


(* ===================================================================== *)
(** * Properties *)
(* ===================================================================== *)

(** ** Comparisons of numbers *)

Lemma compare_None_iff (x y : number) :
  SFcompare x y = None <-> x = S754_nan \/ y = S754_nan.
Proof.
  destruct x as [sx|sx| |sx mx ex], y as [sy|sy| |sy my ey]; simpl;
    intuition (try discriminate; try congruence).
Qed.

Lemma ge_nan_l (y : number) : JS.ge JS.NaN y = false.
Proof. reflexivity. Qed.

Lemma ge_nan_r (x : number) : JS.ge x JS.NaN = false.
Proof. destruct x; reflexivity. Qed.

Lemma isNaN_true (x : number) : JS.isNaN x = true -> x = JS.NaN.
Proof. destruct x; simpl; intros; try discriminate; reflexivity. Qed.

(** Away from NaN, [!(c <= 0)] is [c > 0]. *)
Lemma not_le_zero_gt (c : number) :
  JS.isNaN c = false -> negb (JS.le c JS.zero) = JS.gt c JS.zero.
Proof.
  unfold JS.le, JS.gt, SFleb.
  destruct c as [s|s| |s m e]; simpl; try discriminate; intros _;
    destruct s; reflexivity.
Qed.

(** The ratio is a well-formed binary64 value, [m * 2^-55] with
    [5 * m = 2^55 + 2]: it is 0.4 units in the last place above 1/5, so it is
    the binary64 value nearest to 0.2. *)
Lemma volumeGrowthRatio_nearest_one_fifth :
  valid_binary JS.prec JS.emax volumeGrowthRatioForRenotify = true /\
  exists m : positive,
    volumeGrowthRatioForRenotify = S754_finite false m (-55) /\
    (5 * Z.pos m = 2 ^ 55 + 2)%Z.
Proof. split; [reflexivity|]. eexists. split; reflexivity. Qed.

(** [1 + 0.2] is the binary64 value 0x1.3333333333333p+0, the one the
    literal [1.2] denotes. *)
Lemma one_plus_ratio :
  JS.add (JS.of_Z 1) volumeGrowthRatioForRenotify
  = S754_finite false 5404319552844595 (-52).
Proof. vm_compute. reflexivity. Qed.

(** A prior volume that is [<= 0] gives the growth base +0. *)
Lemma max_nonpositive_zero (v : number) :
  JS.le v JS.zero = true -> JS.Math_max v JS.zero = JS.zero.
Proof.
  unfold JS.le, SFleb, JS.Math_max.
  destruct v as [s|s| |s m e]; simpl; try discriminate;
    destruct s; simpl; intros; try discriminate; reflexivity.
Qed.

Lemma threshold_nonpositive_zero (prior : NotifyState.t) :
  JS.le (NotifyState.volume prior) JS.zero = true ->
  volumeIncreaseThreshold prior = JS.zero.
Proof.
  intros H. unfold volumeIncreaseThreshold.
  rewrite (max_nonpositive_zero _ H), one_plus_ratio. reflexivity.
Qed.

Lemma applyCooldown_In config now (st : Store) (pool : Pool.t) (pools : list Pool.t) :
  In pool (applyCooldown config now st pools)
  <-> In pool pools /\ cooldownKeep config now st pool = true.
Proof. unfold applyCooldown. apply filter_In. Qed.

(** ** Threshold filter *)

(** On a pool of the declared type, [matches] is a total boolean function
    of the pool and the configuration; it is true exactly when
    [apr >= minApr], [earnFee >= minEarnFee] and [volume >= minVolume] all
    hold, and a NaN in any of the three metrics, or in any of the three
    minimums, makes it false. *)
Lemma matches_contract (config : MonitorConfig.t) (pool : Pool.t) :
  (matches config pool = true <->
     JS.ge (Pool.apr pool) (MonitorConfig.minApr config) = true /\
     JS.ge (Pool.earnFee pool) (MonitorConfig.minEarnFee config) = true /\
     JS.ge (Pool.volume pool) (MonitorConfig.minVolume config) = true) /\
  (JS.isNaN (Pool.apr pool) || JS.isNaN (Pool.earnFee pool) ||
   JS.isNaN (Pool.volume pool) || JS.isNaN (MonitorConfig.minApr config) ||
   JS.isNaN (MonitorConfig.minEarnFee config) ||
   JS.isNaN (MonitorConfig.minVolume config) = true ->
   matches config pool = false).
Proof.
  unfold matches. split.
  - rewrite !andb_true_iff. tauto.
  - rewrite !orb_true_iff.
    intros [[[[[H|H]|H]|H]|H]|H]; apply isNaN_true in H; rewrite H;
      rewrite ?ge_nan_l, ?ge_nan_r, ?andb_false_r; reflexivity.
Qed.

(** A pool whose APR is NaN fails the filter, and the entity of the
    scenario passes it. *)
Lemma matches_samples :
  matches defaultConfig (samplePool "0xAA" JS.NaN (JS.of_Z 2000) (JS.of_Z 150000)) = false /\
  matches defaultConfig
          (samplePool "0xAA" (JS.of_Z 4000) (JS.of_Z 2000) (JS.of_Z 150000)) = true.
Proof.
  split.
  - apply (proj2 (matches_contract defaultConfig _)). reflexivity.
  - apply (proj1 (matches_contract defaultConfig _)). repeat split.
Qed.

(** *** Pools that are not of the declared type *)

Section UncheckedFilter.
Variable Number_of_string : string -> number.
Variable String_of_number : number -> string.
Variable config : MonitorConfig.t.







End UncheckedFilter.




(** ** Cooldown engine *)

(** The guard of line 161 followed by the comparison of line 165 is the
    test [c > 0 && now - notifiedAt >= c], also when [c] is NaN. *)
Lemma cooldown_elapsed_test (c elapsed : number) :
  (if JS.le c JS.zero then false else JS.ge elapsed c)
  = JS.gt c JS.zero && JS.ge elapsed c.
Proof.
  destruct (JS.isNaN c) eqn:Hc.
  - apply isNaN_true in Hc. subst c. rewrite ge_nan_r. reflexivity.
  - rewrite <- (not_le_zero_gt c Hc). destruct (JS.le c JS.zero); reflexivity.
Qed.

(** C1: the decision of the cooldown engine for one pool, against the state
    map [st], the time [now] and the cooldown duration [c], with growth
    ratio 0.2. Without a prior record under the lower-cased address the pool
    is kept. With a prior record it is kept iff
    [volume >= max(priorVolume, 0) * (1 + 0.2)], or [c > 0] and
    [now - priorNotifiedAt >= c]; so a pool whose volume is not at least the
    threshold is dropped when [c <= 0]. The batch is the list of the pools
    kept. *)
Theorem cooldown_decision (config : MonitorConfig.t) (now : number) (st : Store)
    (pool : Pool.t) :
  let key := toLowerCase (Pool.address pool) in
  let c := MonitorConfig.notifyCooldownMs config in
  (st !! key = None -> cooldownKeep config now st pool = true) /\
  (forall prior : NotifyState.t, st !! key = Some prior ->
     let threshold :=
       JS.mul (JS.Math_max (NotifyState.volume prior) JS.zero)
              (JS.add (JS.of_Z 1) volumeGrowthRatioForRenotify) in
     (cooldownKeep config now st pool = true <->
        JS.ge (Pool.volume pool) threshold = true \/
        (JS.gt c JS.zero = true /\
         JS.ge (JS.sub now (NotifyState.notifiedAt prior)) c = true)) /\
     (JS.ge (Pool.volume pool) threshold = false -> JS.le c JS.zero = true ->
        cooldownKeep config now st pool = false)) /\
  (forall pools : list Pool.t,
     In pool (applyCooldown config now st pools)
     <-> In pool pools /\ cooldownKeep config now st pool = true).
Proof.
  intros key c. split; [|split].
  - intros Hnone. unfold cooldownKeep. fold key. rewrite Hnone. reflexivity.
  - intros prior Hprior threshold.
    assert (Hkeep : cooldownKeep config now st pool
                    = JS.ge (Pool.volume pool) threshold
                      || (JS.gt c JS.zero
                          && JS.ge (JS.sub now (NotifyState.notifiedAt prior)) c)).
    { unfold cooldownKeep. fold key. rewrite Hprior.
      change (volumeIncreaseThreshold prior) with threshold. fold c.
      rewrite <- cooldown_elapsed_test.
      destruct (JS.ge (Pool.volume pool) threshold); reflexivity. }
    split.
    + rewrite Hkeep, orb_true_iff, andb_true_iff. tauto.
    + intros Hlow Hc. rewrite Hkeep, Hlow. simpl.
      unfold JS.gt. unfold JS.le, SFleb in Hc.
      destruct (SFcompare c JS.zero) as [[]|]; try discriminate; reflexivity.
  - intros pools. apply applyCooldown_In.
Qed.

(** Within the cooldown a volume of 200000 against a prior 150000 is kept
    by the growth test; with the cooldown disabled an unchanged volume is
    dropped. *)
Lemma cooldown_decision_witness :
  let t0 := JS.of_Z 1700000000000 in
  let hour := JS.add t0 (JS.of_Z 3600000) in
  let prior := NotifyState.mk t0 (JS.of_Z 150000) in
  let st : Store := {[ "0xaa" := prior ]} in
  let A (v : Z) := samplePool "0xAA" (JS.of_Z 4000) (JS.of_Z 2000) (JS.of_Z v) in
  cooldownKeep (configWith "https://hook" (JS.of_Z 86400000)) hour st (A 200000%Z) = true /\
  cooldownKeep (configWith "https://hook" JS.zero) hour st (A 150000%Z) = false.
Proof.
  intros t0 hour prior st A. split.
  - apply (proj1 (proj2 (cooldown_decision
                           (configWith "https://hook" (JS.of_Z 86400000)) hour st
                           (A 200000%Z))) prior eq_refl).
    left. vm_compute. reflexivity.
  - apply (proj1 (proj2 (cooldown_decision
                           (configWith "https://hook" JS.zero) hour st
                           (A 150000%Z))) prior eq_refl);
      vm_compute; reflexivity.
Defined.

(** The scenario of the specification: cooldown of one day, entity A with
    volume 150000 notified at [t0]. One hour later with the same volume it is
    dropped; with volume 200000 (at least 150000 * 1.2 = 180000) it is kept;
    a day later it is kept again. *)
Example cooldown_scenario :
  let cfg := configWith "https://hook" (JS.of_Z 86400000) in
  let t0 := JS.of_Z 1700000000000 in
  let hour := JS.add t0 (JS.of_Z 3600000) in
  let day := JS.add t0 (JS.of_Z 86400000) in
  let st : Store := {[ "0xaa" := NotifyState.mk t0 (JS.of_Z 150000) ]} in
  let A v := samplePool "0xAA" (JS.of_Z 4000) (JS.of_Z 2000) (JS.of_Z v) in
  matches cfg (A 150000%Z) = true /\
  cooldownKeep cfg t0 ∅ (A 150000%Z) = true /\
  cooldownKeep cfg hour st (A 150000%Z) = false /\
  cooldownKeep cfg hour st (A 179999%Z) = false /\
  cooldownKeep cfg hour st (A 180000%Z) = true /\
  cooldownKeep cfg hour st (A 200000%Z) = true /\
  cooldownKeep cfg day st (A 150000%Z) = true /\
  cooldownKeep (configWith "https://hook" JS.zero) day st (A 150000%Z) = false.
Proof. vm_compute. repeat split; reflexivity. Qed.

(** C10: a pool whose prior record has a volume [<= 0] has the growth
    threshold [max(priorVolume, 0) * 1.2 = 0]; so with a current volume
    [>= 0] the growth override fires and the pool is kept, whatever the
    cooldown duration and the time, in every cycle in which it passes the
    threshold filter. A record upgraded from a legacy bare number has volume
    0 and is such a record. *)
Theorem nonpositive_prior_volume_renotifies :
  (forall (config : MonitorConfig.t) (now : number) (st : Store) (pool : Pool.t)
          (prior : NotifyState.t),
     st !! toLowerCase (Pool.address pool) = Some prior ->
     JS.le (NotifyState.volume prior) JS.zero = true ->
     volumeIncreaseThreshold prior = JS.zero /\
     (JS.ge (Pool.volume pool) JS.zero = true ->
      JS.ge (Pool.volume pool) (volumeIncreaseThreshold prior) = true /\
      cooldownKeep config now st pool = true /\
      forall pools : list Pool.t,
        In pool pools -> matches config pool = true ->
        In pool (applyCooldown config now st (List.filter (matches config) pools)))) /\
  (forall (config : MonitorConfig.t) (now : number) (st : Store) (pool : Pool.t)
          (address : string) (n : number),
     JS.isFinite n = true ->
     toLowerCase (Pool.address pool) = toLowerCase address ->
     let st' := loadEntry st (address, JNum n) in
     st' !! toLowerCase address = Some (NotifyState.mk n JS.zero) /\
     (JS.ge (Pool.volume pool) JS.zero = true ->
      cooldownKeep config now st' pool = true)).
Proof.
  assert (Hkeep : forall config now (st : Store) pool prior,
             st !! toLowerCase (Pool.address pool) = Some prior ->
             JS.le (NotifyState.volume prior) JS.zero = true ->
             JS.ge (Pool.volume pool) JS.zero = true ->
             cooldownKeep config now st pool = true).
  { intros config now st pool prior Hprior Hle Hge. unfold cooldownKeep.
    rewrite Hprior, (threshold_nonpositive_zero _ Hle), Hge. reflexivity. }
  split.
  - intros config now st pool prior Hprior Hle.
    split; [exact (threshold_nonpositive_zero _ Hle)|].
    intros Hge. rewrite (threshold_nonpositive_zero _ Hle).
    split; [exact Hge|]. split; [eauto|].
    intros pools Hin Hm. apply applyCooldown_In. split; [|eauto].
    apply filter_In. auto.
  - intros config now st pool address n Hfin Hkey st'.
    assert (Hst' : st' !! toLowerCase address = Some (NotifyState.mk n JS.zero)).
    { unfold st', loadEntry. rewrite Hfin. apply lookup_insert_eq. }
    split; [exact Hst'|]. intros Hge.
    apply (Hkeep config now st' pool (NotifyState.mk n JS.zero)); auto.
    rewrite Hkey. exact Hst'.
Qed.

(** A legacy entry read at start-up: the pool is re-notified one minute
    later although the cooldown is a day, and also when it is disabled. *)
Lemma nonpositive_prior_volume_renotifies_witness :
  let t0 := JS.of_Z 1700000000000 in
  let st := loadEntry ∅ ("0xAB", JNum t0) in
  let pool := samplePool "0xAb" (JS.of_Z 4000) (JS.of_Z 2000) (JS.of_Z 100000) in
  cooldownKeep defaultConfig (JS.add t0 (JS.of_Z 60000)) st pool = true /\
  cooldownKeep (configWith "" JS.zero) (JS.add t0 (JS.of_Z 60000)) st pool = true.
Proof.
  intros t0 st pool. split.
  - apply (proj2 nonpositive_prior_volume_renotifies defaultConfig
             (JS.add t0 (JS.of_Z 60000)) ∅ pool "0xAB" t0); reflexivity.
  - apply (proj2 nonpositive_prior_volume_renotifies (configWith "" JS.zero)
             (JS.add t0 (JS.of_Z 60000)) ∅ pool "0xAB" t0); reflexivity.
Defined.

(** ** Lower-casing *)

Lemma lower_ascii_idem (c : ascii) : lower_ascii (lower_ascii c) = lower_ascii c.
Proof. destruct c as [[] [] [] [] [] [] [] []]; reflexivity. Qed.

Lemma toLowerCase_idem (s : string) : toLowerCase (toLowerCase s) = toLowerCase s.
Proof.
  induction s as [|c s IH]; simpl; [reflexivity|].
  rewrite lower_ascii_idem, IH. reflexivity.
Qed.

(** ** Loading entries *)

(** [loadEntry] reads an entry as the snapshot format says. *)
Lemma loadEntry_spec (st : Store) (address : string) (value : json) :
  loadEntry st (address, value)
  = match entry_record value with
    | Some r => <[toLowerCase address := r]> st
    | None => st
    end.
Proof.
  destruct value as [ |b|x|s|items|props]; simpl; try reflexivity.
  - destruct (JS.isFinite x); reflexivity.
  - unfold isFiniteValue.
    destruct (getProp "notifiedAt" props) as [[ |b|t|s|items|ps]|];
      destruct (getProp "volume" props) as [[ |b'|v|s'|items'|ps']|];
      try reflexivity;
      try (destruct (JS.isFinite t); reflexivity).
    destruct (JS.isFinite t), (JS.isFinite v); reflexivity.
Qed.

Lemma loadEntry_lookup (st : Store) (address : string) (value : json) (k : string) :
  loadEntry st (address, value) !! k
  = if String.eqb (toLowerCase address) k
    then match entry_record value with Some r => Some r | None => st !! k end
    else st !! k.
Proof.
  rewrite loadEntry_spec.
  destruct (String.eqb_spec (toLowerCase address) k) as [->|Hne];
    destruct (entry_record value) as [r|]; try reflexivity.
  - apply lookup_insert_eq.
  - apply lookup_insert_ne. exact Hne.
Qed.

Lemma foldl_loadEntry_lookup (entries : list (string * json)) (st : Store) (k : string) :
  foldl loadEntry st entries !! k = loaded_record k entries (st !! k).
Proof.
  revert st. induction entries as [|[address value] rest IH]; intros st;
    cbn [foldl loaded_record].
  - reflexivity.
  - rewrite IH, loadEntry_lookup. reflexivity.
Qed.

(** A record found after loading was there before or is denoted by an entry. *)
Lemma loaded_record_origin (k : string) (entries : list (string * json))
    (prior : option NotifyState.t) (r : NotifyState.t) :
  loaded_record k entries prior = Some r ->
  prior = Some r \/
  exists address value,
    (address, value) ∈ entries /\ toLowerCase address = k /\ entry_record value = Some r.
Proof.
  revert prior. induction entries as [|[address value] rest IH]; intros prior; simpl.
  - auto.
  - intros H. apply IH in H as [H|(a & v & Hin & Hk & Hr)].
    + destruct (String.eqb_spec (toLowerCase address) k) as [Hk|_]; [|auto].
      destruct (entry_record value) as [r'|] eqn:Hr; [|auto].
      right. exists address, value. split; [apply list_elem_of_here|].
      split; [exact Hk|]. congruence.
    + right. exists a, v. split; [apply list_elem_of_further; exact Hin|auto].
Qed.

Lemma loaded_record_Some (k : string) (entries : list (string * json))
    (r : NotifyState.t) :
  is_Some (loaded_record k entries (Some r)).
Proof.
  revert r. induction entries as [|[address value] rest IH]; intros r; simpl.
  - eauto.
  - destruct (String.eqb (toLowerCase address) k); [|apply IH].
    destruct (entry_record value); apply IH.
Qed.

(** Every entry that denotes a record leaves a record under its key. *)
Lemma loaded_record_covers (entries : list (string * json)) (address : string)
    (value : json) (prior : option NotifyState.t) :
  (address, value) ∈ entries -> is_Some (entry_record value) ->
  is_Some (loaded_record (toLowerCase address) entries prior).
Proof.
  intros Hin [r Hr]. revert prior.
  induction entries as [|[a v] rest IH]; intros prior; simpl.
  - inversion Hin.
  - apply elem_of_cons in Hin as [Heq|Hin]; [|apply IH; exact Hin].
    inversion Heq; subst a v. rewrite String.eqb_refl, Hr.
    apply loaded_record_Some.
Qed.

Lemma loaded_record_other (k : string) (entries : list (string * json))
    (prior : option NotifyState.t) :
  k ∉ (toLowerCase ∘ fst) <$> entries -> loaded_record k entries prior = prior.
Proof.
  revert prior. induction entries as [|[a v] rest IH]; intros prior;
    cbn [loaded_record].
  - reflexivity.
  - rewrite fmap_cons, not_elem_of_cons. intros [Hne Hnot].
    rewrite (IH _ Hnot).
    destruct (String.eqb_spec (toLowerCase a) k) as [Heq|_]; [|reflexivity].
    exfalso. apply Hne. symmetry. exact Heq.
Qed.

(** When no two entries share a lower-cased address, each entry that
    denotes a record is found under its key. *)
Lemma loaded_record_NoDup (entries : list (string * json)) (address : string)
    (value : json) (r : NotifyState.t) (prior : option NotifyState.t) :
  NoDup ((toLowerCase ∘ fst) <$> entries) ->
  (address, value) ∈ entries -> entry_record value = Some r ->
  loaded_record (toLowerCase address) entries prior = Some r.
Proof.
  intros Hnd Hin Hr. revert prior Hnd.
  induction entries as [|[a v] rest IH]; intros prior Hnd; simpl.
  - inversion Hin.
  - rewrite fmap_cons in Hnd. apply NoDup_cons in Hnd as [Hnot Hnd].
    apply elem_of_cons in Hin as [Heq|Hin].
    + inversion Heq; subst a v. rewrite String.eqb_refl, Hr.
      apply loaded_record_other. exact Hnot.
    + destruct (String.eqb_spec (toLowerCase a) (toLowerCase address)) as [Heq|_];
        [|apply IH; assumption].
      exfalso. apply Hnot. simpl. rewrite Heq.
      apply (list_elem_of_fmap_2 (toLowerCase ∘ fst) rest (address, value)). exact Hin.
Qed.

(** ** State store: loading *)

(** C6: [load()] turns a legacy bare-number entry with a finite value [n]
    into the record [{notifiedAt: n, volume: 0}] under the lower-cased key,
    and an object with finite [notifiedAt] and [volume] into that record;
    any other entry leaves the store as it is and logs nothing. After a
    whole file the record under a key is the one of the last such entry with
    that lower-cased key, so every legacy entry is found upgraded when no
    two keys of the file agree up to case, and every record of the store
    comes from an entry. A missing file ([ENOENT]) logs nothing and leaves
    the empty store. *)
Theorem load_upgrades_legacy_and_skips_malformed :
  (forall (st : Store) (address : string) (n : number),
     JS.isFinite n = true ->
     loadEntry st (address, JNum n)
     = <[toLowerCase address := NotifyState.mk n JS.zero]> st) /\
  (forall (st : Store) (address : string) props (t v : number),
     getProp "notifiedAt" props = Some (JNum t) ->
     getProp "volume" props = Some (JNum v) ->
     JS.isFinite t = true -> JS.isFinite v = true ->
     loadEntry st (address, JObj props)
     = <[toLowerCase address := NotifyState.mk t v]> st) /\
  (forall (st : Store) (address : string) (value : json),
     (forall n, value = JNum n -> JS.isFinite n = false) ->
     (forall props t v, value = JObj props ->
        getProp "notifiedAt" props = Some (JNum t) ->
        getProp "volume" props = Some (JNum v) ->
        JS.isFinite t && JS.isFinite v = false) ->
     loadEntry st (address, value) = st) /\
  (forall (st : Store) props,
     let st' := foldl loadEntry st props in
     loadNotifiedState (ReadText (Some (JObj props))) st = (st', [LogLoaded (size st')]) /\
     forall k, st' !! k = loaded_record k props (st !! k)) /\
  (forall props (address : string) (n : number),
     NoDup ((toLowerCase ∘ fst) <$> props) ->
     (address, JNum n) ∈ props -> JS.isFinite n = true ->
     (loadNotifiedState (ReadText (Some (JObj props))) ∅).1 !! toLowerCase address
     = Some (NotifyState.mk n JS.zero)) /\
  (forall props (k : string) (r : NotifyState.t),
     (loadNotifiedState (ReadText (Some (JObj props))) ∅).1 !! k = Some r ->
     exists address value,
       (address, value) ∈ props /\ toLowerCase address = k /\
       entry_record value = Some r) /\
  loadNotifiedState ReadENOENT ∅ = (∅, []) /\
  (forall d : Disk, store_file d = None ->
     boot false d = (mkSys (mkWorld false ∅ d) [], [])).
Proof.
  repeat split.
  - intros st address n Hn. rewrite loadEntry_spec. simpl. rewrite Hn. reflexivity.
  - intros st address props t v Ht Hv Hft Hfv. rewrite loadEntry_spec. simpl.
    rewrite Ht, Hv, Hft, Hfv. reflexivity.
  - intros st address value Hnum Hobj. rewrite loadEntry_spec.
    destruct value as [ |b|x|s|items|props]; simpl; try reflexivity.
    + rewrite (Hnum x eq_refl). reflexivity.
    + destruct (getProp "notifiedAt" props) as [[ |b|t|s|items|ps]|] eqn:Ht;
        try reflexivity.
      destruct (getProp "volume" props) as [[ |b|v|s|items|ps]|] eqn:Hv;
        try reflexivity.
      rewrite (Hobj props t v eq_refl Ht Hv). reflexivity.
  - intros k. apply foldl_loadEntry_lookup.
  - intros props address n Hnd Hin Hn. simpl.
    rewrite foldl_loadEntry_lookup.
    apply (loaded_record_NoDup props address (JNum n)); [assumption..|].
    simpl. rewrite Hn. reflexivity.
  - intros props k r. simpl. rewrite foldl_loadEntry_lookup, lookup_empty.
    intros H. apply loaded_record_origin in H as [H|H]; [discriminate|exact H].
  - intros d Hd. unfold boot, readFile. rewrite Hd. reflexivity.
Qed.

(** A legacy entry under an upper-case key, and an entry that is skipped. *)
Lemma load_upgrades_legacy_and_skips_malformed_witness :
  loadEntry ∅ ("0xAB", JNum (JS.of_Z 1700000000000))
  = {[ "0xab" := NotifyState.mk (JS.of_Z 1700000000000) JS.zero ]} /\
  loadEntry ∅ ("0xAB", JStr "1700000000000") = ∅.
Proof.
  split.
  - apply (proj1 load_upgrades_legacy_and_skips_malformed ∅ "0xAB"). reflexivity.
  - apply (proj1 (proj2 (proj2 load_upgrades_legacy_and_skips_malformed)) ∅ "0xAB");
      intros; discriminate.
Defined.

(** A snapshot in both formats, with entries that are skipped: [null], a
    string, an infinite number, an object without [volume], an object whose
    [volume] is a string. *)
Example load_mixed_snapshot :
  let file := JObj [("0xAA", JNum (JS.of_Z 1700000000000));
                    ("0xbb", JObj [("notifiedAt", JNum (JS.of_Z 5));
                                   ("volume", JNum (JS.of_Z 7))]);
                    ("0xcc", JNull);
                    ("0xdd", JStr "12");
                    ("0xee", JNum JS.Infinity);
                    ("0xff", JObj [("notifiedAt", JNum (JS.of_Z 5))]);
                    ("0x11", JObj [("notifiedAt", JNum (JS.of_Z 5));
                                   ("volume", JStr "7")])] in
  loadNotifiedState (ReadText (Some file)) ∅
  = ({[ "0xaa" := NotifyState.mk (JS.of_Z 1700000000000) JS.zero;
        "0xbb" := NotifyState.mk (JS.of_Z 5) (JS.of_Z 7) ]},
     [LogLoaded 2]).
Proof. vm_compute. reflexivity. Qed.

(** Two keys that agree up to case: the later entry wins. *)
Example load_colliding_keys :
  (loadNotifiedState
     (ReadText (Some (JObj [("0xAB", JNum (JS.of_Z 5));
                            ("0xab", JObj [("notifiedAt", JNum (JS.of_Z 7));
                                           ("volume", JNum (JS.of_Z 3))])]))) ∅).1
  !! "0xab" = Some (NotifyState.mk (JS.of_Z 7) (JS.of_Z 3)).
Proof. vm_compute. reflexivity. Qed.

(** A file that is not JSON, or that holds [null], is logged and ignored. *)
Example load_unreadable :
  loadNotifiedState (ReadText None) ∅ = (∅, [WarnLoadFailed]) /\
  loadNotifiedState (ReadText (Some JNull)) ∅ = (∅, [WarnLoadFailed]) /\
  loadNotifiedState ReadError ∅ = (∅, [WarnLoadFailed]).
Proof. repeat split. Qed.

(** ** State store: keys *)

Lemma loadEntry_keys_normalized (st : Store) (entry : string * json) :
  keys_normalized st -> keys_normalized (loadEntry st entry).
Proof.
  destruct entry as [address value]. intros Hst k r.
  rewrite loadEntry_lookup.
  destruct (String.eqb_spec (toLowerCase address) k) as [<-|_]; [|apply Hst].
  destruct (entry_record value); [|apply Hst].
  intros _. apply toLowerCase_idem.
Qed.

Lemma load_keys_normalized (r : ReadResult) (st : Store) :
  keys_normalized st -> keys_normalized (loadNotifiedState r st).1.
Proof.
  intros Hst. destruct r as [ | |[data|]]; simpl; try exact Hst.
  destruct (Object_entries data) as [entries|]; simpl; [|exact Hst].
  revert st Hst. induction entries as [|e rest IH]; intros st Hst; simpl.
  - exact Hst.
  - apply IH, loadEntry_keys_normalized, Hst.
Qed.

Lemma upsert_keys_normalized (st : Store) (address : string) (r : NotifyState.t) :
  keys_normalized st -> keys_normalized (<[toLowerCase address := r]> st).
Proof.
  intros Hst k r'. rewrite lookup_insert. case_decide as Hk.
  - intros _. subst k. apply toLowerCase_idem.
  - apply Hst.
Qed.

Lemma store_built_keys_normalized (st : Store) :
  store_built st -> keys_normalized st.
Proof.
  induction 1 as [|r st _ IH|now pool st _ IH].
  - intros k r. rewrite lookup_empty. discriminate.
  - apply load_keys_normalized, IH.
  - apply upsert_keys_normalized, IH.
Qed.

Lemma snapshot_entries_elem (st : Store) (k : string) (j : json) :
  (k, j) ∈ snapshot_entries st <-> exists r, st !! k = Some r /\ j = json_of_state r.
Proof.
  unfold snapshot_entries. rewrite list_elem_of_In, in_map_iff. split.
  - intros ([k' r] & Heq & Hin). simpl in Heq. inversion Heq; subst.
    exists r. split; [|reflexivity].
    apply elem_of_map_to_list, list_elem_of_In, Hin.
  - intros (r & Hr & ->). exists (k, r). split; [reflexivity|].
    apply list_elem_of_In, elem_of_map_to_list, Hr.
Qed.

Lemma snapshot_entries_keys (st : Store) :
  fst <$> snapshot_entries st = (map_to_list st).*1.
Proof.
  unfold snapshot_entries. induction (map_to_list st) as [|[k r] l IH]; simpl.
  - reflexivity.
  - f_equal. exact IH.
Qed.

Lemma keys_normalized_lowercase_keyed (st : Store) :
  keys_normalized st -> lowercase_keyed st.
Proof.
  intros Hst. repeat split.
  - eapply Hst; eassumption.
  - exists k. symmetry. eapply Hst; eassumption.
  - intros k1 k2 [r1 H1] [r2 H2] Heq.
    rewrite (Hst _ _ H1), (Hst _ _ H2) in Heq. exact Heq.
  - intros k j (r & Hr & _)%snapshot_entries_elem. eapply Hst; eassumption.
  - rewrite snapshot_entries_keys. apply NoDup_fst_map_to_list.
Qed.

Lemma recordNotified_built (now : number) (deduped : list Pool.t) (st : Store) :
  store_built st -> store_built (recordNotified now deduped st).
Proof.
  unfold recordNotified. revert st.
  induction deduped as [|pool rest IH]; intros st Hst; simpl.
  - exact Hst.
  - apply IH, built_upsert, Hst.
Qed.

(** A segment of [runOnce] leaves the map alone or records a batch in it. *)
Lemma resume_store (config : MonitorConfig.t) (s : Settle) (p : Pending) (w : World) :
  notifyState (resume config s p w).1.1 = notifyState w \/
  exists now deduped,
    notifyState (resume config s p w).1.1 = recordNotified now deduped (notifyState w).
Proof.
  destruct p as [startedAt|startedAt deduped|startedAt]; simpl.
  - unfold after_fetch. destruct (fetched s) as [pools|]; [|left; reflexivity].
    destruct (length _ =? 0)%nat; [left; reflexivity|].
    destruct (String.eqb _ _); [|left; reflexivity].
    right. eexists _, _. reflexivity.
  - unfold after_webhook. destruct (webhook s); [|left; reflexivity..].
    right. eexists _, _. reflexivity.
  - unfold after_persist. destruct (fsFault s) as [[]|]; left; reflexivity.
Qed.

Lemma enter_store (t : number) (w : World) :
  notifyState (runOnce_enter t w).1.1 = notifyState w.
Proof. unfold runOnce_enter. destruct (running w); reflexivity. Qed.

Lemma reachable_store_built (config : MonitorConfig.t) (sys : Sys) :
  reachable config sys -> store_built (notifyState (world sys)).
Proof.
  induction 1 as [readFails d|sys i evs sys' _ IH Hstep].
  - unfold boot.
    pose proof (built_load (if readFails then ReadError else readFile d) ∅ built_empty)
      as Hb.
    destruct (loadNotifiedState _ ∅) as [st evs]. exact Hb.
  - destruct Hstep as [t w ps w' k evs He|s p w ps1 ps2 w' k evs He]; simpl in *.
    + pose proof (enter_store t w) as Hs. rewrite He in Hs. simpl in Hs.
      rewrite Hs. exact IH.
    + destruct (resume_store config s p w) as [Hs|(now & deduped & Hs)];
        rewrite He in Hs; simpl in Hs; rewrite Hs.
      * exact IH.
      * apply recordNotified_built, IH.
Qed.

(** C9: after any sequence of load and upsert operations, and so in every
    state the running service can reach, every key of the notify-state map
    is the lower-case form of an address and is its own lower-case form, no
    two keys agree up to case (at most one record per normalized key), and
    the snapshot written from the map is keyed by lower-case strings, each
    occurring once. *)
Theorem store_keys_lowercase :
  (forall st : Store, store_built st -> lowercase_keyed st) /\
  (forall (config : MonitorConfig.t) (sys : Sys),
     reachable config sys -> lowercase_keyed (notifyState (world sys))).
Proof.
  split.
  - intros st Hst. apply keys_normalized_lowercase_keyed, store_built_keys_normalized, Hst.
  - intros config sys Hsys.
    apply keys_normalized_lowercase_keyed, store_built_keys_normalized.
    eapply reachable_store_built, Hsys.
Qed.

(** A store loaded from a file with an upper-case key and then updated for
    a pool with a mixed-case address. *)
Lemma store_keys_lowercase_witness :
  lowercase_keyed
    (<[toLowerCase "0xAbCd" := NotifyState.mk (JS.of_Z 2) (JS.of_Z 9)]>
       (loadNotifiedState (ReadText (Some (JObj [("0xABCD", JNum (JS.of_Z 1))]))) ∅).1).
Proof.
  apply (proj1 store_keys_lowercase).
  apply (built_upsert (JS.of_Z 2)
           (samplePool "0xAbCd" JS.zero JS.zero (JS.of_Z 9))).
  apply built_load, built_empty.
Defined.

(** ** State store: round trip *)

Lemma strict_eq_normalize_zero (x : number) :
  JS.isFinite x = true -> JS.strict_eq (normalize_zero x) x = true.
Proof.
  destruct x as [s|s| |s m e]; simpl; try discriminate; intros _.
  - reflexivity.
  - unfold JS.strict_eq, SFeqb. simpl.
    destruct s; rewrite Z.compare_refl, Pos.compare_cont_refl; reflexivity.
Qed.

Lemma same_state_normalize (r : NotifyState.t) :
  finite_state r = true -> same_state (normalize_state r) r.
Proof.
  unfold finite_state. rewrite andb_true_iff. intros [Ht Hv].
  split; apply strict_eq_normalize_zero; assumption.
Qed.

(** A record without -0 is written and read back unchanged. *)
Lemma normalize_state_id (r : NotifyState.t) :
  NotifyState.notifiedAt r <> JS.neg_zero -> NotifyState.volume r <> JS.neg_zero ->
  normalize_state r = r.
Proof.
  destruct r as [t v]. unfold normalize_state. simpl. intros Ht Hv.
  f_equal.
  - destruct t as [[]| | |]; try reflexivity. contradiction.
  - destruct v as [[]| | |]; try reflexivity. contradiction.
Qed.

(** What is written for a record of finite numbers reads back as it. *)
Lemma entry_record_json_of_state (r : NotifyState.t) :
  finite_state r = true -> entry_record (json_of_state r) = Some (normalize_state r).
Proof.
  destruct r as [t v]. unfold finite_state. simpl.
  destruct t as [st|st| |st mt et]; simpl; try discriminate;
    destruct v as [sv|sv| |sv mv ev]; simpl; try discriminate; reflexivity.
Qed.

Section RoundTrip.
Variable st : Store.
Variable entries : list (string * json).
Hypothesis Hfinite : records_finite st.
Hypothesis Hentries : entries ≡ₚ snapshot_entries st.

Lemma entries_elem (k : string) (j : json) :
  (k, j) ∈ entries <-> exists r, st !! k = Some r /\ j = json_of_state r.
Proof using Hentries. rewrite Hentries. apply snapshot_entries_elem. Qed.

(** Every record read back is the record of a key with that lower-case form. *)
Lemma reload_origin (k' : string) (r' : NotifyState.t) :
  foldl loadEntry ∅ entries !! k' = Some r' ->
  exists k r, st !! k = Some r /\ toLowerCase k = k' /\ r' = normalize_state r.
Proof using Hfinite Hentries.
  rewrite foldl_loadEntry_lookup, lookup_empty.
  intros [H|(k & j & Hin & Hk & Hj)]%loaded_record_origin; [discriminate|].
  apply entries_elem in Hin as (r & Hr & ->).
  rewrite (entry_record_json_of_state r (Hfinite _ _ Hr)) in Hj.
  exists k, r. repeat split; congruence.
Qed.

(** Every key of the store is read back under its lower-case form. *)
Lemma reload_covers (k : string) :
  is_Some (st !! k) -> is_Some (foldl loadEntry ∅ entries !! toLowerCase k).
Proof using Hfinite Hentries.
  intros [r Hr]. rewrite foldl_loadEntry_lookup.
  apply (loaded_record_covers entries k (json_of_state r)).
  - apply entries_elem. eauto.
  - rewrite (entry_record_json_of_state r (Hfinite _ _ Hr)). eauto.
Qed.

Hypothesis Hkeys : keys_normalized st.

Lemma entries_lower_keys :
  (toLowerCase ∘ fst) <$> entries = fst <$> entries.
Proof using Hentries Hkeys.
  apply list_fmap_ext. intros i [k j] Hin. simpl.
  apply list_elem_of_lookup_2, entries_elem in Hin as (r & Hr & _).
  exact (Hkeys _ _ Hr).
Qed.

Lemma reload_lookup (k : string) :
  foldl loadEntry ∅ entries !! k = normalize_state <$> st !! k.
Proof using Hfinite Hentries Hkeys.
  destruct (st !! k) as [r|] eqn:Hr; simpl.
  - rewrite <- (Hkeys _ _ Hr), foldl_loadEntry_lookup.
    apply (loaded_record_NoDup entries k (json_of_state r)).
    + rewrite entries_lower_keys, Hentries, snapshot_entries_keys.
      apply NoDup_fst_map_to_list.
    + apply entries_elem. eauto.
    + apply entry_record_json_of_state, (Hfinite _ _ Hr).
  - destruct (foldl loadEntry ∅ entries !! k) as [r'|] eqn:Hr'; [|reflexivity].
    apply reload_origin in Hr' as (k0 & r & Hk0 & Hlow & _).
    rewrite (Hkeys _ _ Hk0) in Hlow. congruence.
Qed.

Lemma reload_eq : foldl loadEntry ∅ entries = normalize_state <$> st.
Proof using Hfinite Hentries Hkeys.
  apply map_eq. intros k. rewrite reload_lookup, lookup_fmap. reflexivity.
Qed.

End RoundTrip.

(** C5: for a notify-state map whose records hold finite numbers only,
    [persist()] returns normally and a [load()] of the file it wrote into an
    empty store gives a map whose keys are the lower-case forms of the keys
    of the original. The keys of an in-memory map are lower-case already
    (C9), and then the loaded map has the same keys, each with the same
    [notifiedAt] and [volume] as [===] compares them: it is the original
    with -0 read back as 0, and the original itself when no record holds -0.
    The order in which the properties of the snapshot are enumerated does
    not matter. *)
Theorem persist_then_load_roundtrip (st : Store) (d : Disk) :
  records_finite st ->
  let written := persistNotifiedState None st d in
  let loaded := (loadNotifiedState (readFile written.1.1) ∅).1 in
  written.1.2 = true /\
  (forall k', is_Some (loaded !! k') <->
              exists k, is_Some (st !! k) /\ toLowerCase k = k') /\
  (keys_normalized st ->
     dom loaded = dom st /\
     loaded = normalize_state <$> st /\
     (forall k r, st !! k = Some r ->
        exists r', loaded !! k = Some r' /\ same_state r' r) /\
     ((forall k r, st !! k = Some r ->
         NotifyState.notifiedAt r <> JS.neg_zero /\
         NotifyState.volume r <> JS.neg_zero) ->
      loaded = st) /\
     (forall es, es ≡ₚ snapshot_entries st ->
        (loadNotifiedState (ReadText (Some (JObj es))) ∅).1 = loaded)).
Proof.
  intros Hfin written loaded.
  assert (Hloaded : loaded = foldl loadEntry ∅ (snapshot_entries st)) by reflexivity.
  split; [reflexivity|]. split.
  - intros k'. rewrite Hloaded. split.
    + intros [r' Hr'].
      apply (reload_origin st _ Hfin (reflexivity _)) in Hr' as (k & r & Hr & Hk & _).
      exists k. eauto.
    + intros (k & Hk & <-). apply (reload_covers st _ Hfin (reflexivity _)), Hk.
  - intros Hkeys.
    assert (Heq : loaded = normalize_state <$> st).
    { rewrite Hloaded. apply reload_eq; [assumption|reflexivity|assumption]. }
    split; [|split; [|split; [|split]]].
    + rewrite Heq. apply dom_fmap_L.
    + exact Heq.
    + intros k r Hr. exists (normalize_state r). split.
      * rewrite Heq, lookup_fmap, Hr. reflexivity.
      * apply same_state_normalize, (Hfin _ _ Hr).
    + intros Hnz. rewrite Heq. apply map_eq. intros k. rewrite lookup_fmap.
      destruct (st !! k) as [r|] eqn:Hr; [|reflexivity]. simpl.
      destruct (Hnz _ _ Hr) as [Ht Hv]. rewrite normalize_state_id; auto.
    + intros es Hes. rewrite Heq. simpl. apply reload_eq; assumption.
Qed.

(** Two records, one of them with a volume of -0. *)
Lemma persist_then_load_roundtrip_witness :
  let st : Store := {[ "0xaa" := NotifyState.mk (JS.of_Z 1700000000000) (JS.of_Z 150000);
                       "0xbb" := NotifyState.mk (JS.of_Z 1700000000001) JS.neg_zero ]} in
  let loaded :=
    (loadNotifiedState (readFile (persistNotifiedState None st emptyDisk).1.1) ∅).1 in
  dom loaded = dom st /\
  loaded !! "0xaa" = Some (NotifyState.mk (JS.of_Z 1700000000000) (JS.of_Z 150000)) /\
  loaded !! "0xbb" = Some (NotifyState.mk (JS.of_Z 1700000000001) JS.zero).
Proof.
  intros st loaded.
  assert (Hfin : records_finite st).
  { intros k r. unfold st. rewrite lookup_insert. case_decide.
    - intros [= <-]. reflexivity.
    - rewrite lookup_singleton. case_decide; [|discriminate].
      intros [= <-]. reflexivity. }
  assert (Hkeys : keys_normalized st).
  { intros k r. unfold st. rewrite lookup_insert. case_decide.
    - subst k. reflexivity.
    - rewrite lookup_singleton. case_decide; [|discriminate].
      subst k. reflexivity. }
  destruct (persist_then_load_roundtrip st emptyDisk Hfin) as (_ & _ & Hrt).
  destruct (Hrt Hkeys) as (Hdom & Heq & _).
  split; [exact Hdom|].
  fold loaded in Heq. rewrite Heq, !lookup_fmap. split; reflexivity.
Defined.

(** ** Poll runner: the segments of [runOnce] *)

Section Cycle.
Variable config : MonitorConfig.t.

Lemma world_idle_eta (w : World) :
  running w = false -> mkWorld false (notifyState w) (disk w) = w.
Proof. destruct w as [r st d]. simpl. intros ->. reflexivity. Qed.

Lemma after_fetch_failed (startedAt : number) (s : Settle) (w : World) :
  fetched s = None ->
  after_fetch config startedAt s w
  = (mkWorld false (notifyState w) (disk w), None,
     [LogRunFailed; LogRunEnd (JS.sub (tEnd s) startedAt)]).
Proof. intros H. unfold after_fetch. rewrite H. reflexivity. Qed.

Lemma after_fetch_empty (startedAt : number) (s : Settle) (w : World)
    (pools : list Pool.t) :
  fetched s = Some pools ->
  applyCooldown config (tCooldown s) (notifyState w)
                (List.filter (matches config) pools) = [] ->
  after_fetch config startedAt s w
  = (mkWorld false (notifyState w) (disk w), None,
     [LogFetched (length pools);
      LogMatched (length (List.filter (matches config) pools));
      LogAfterCooldown 0; LogNoPools;
      LogRunEnd (JS.sub (tEnd s) startedAt)]).
Proof. intros H1 H2. unfold after_fetch. rewrite H1. cbv zeta. rewrite H2. reflexivity. Qed.

Lemma length_eqb_0 {A} (l : list A) : l <> [] -> (length l =? 0)%nat = false.
Proof. destruct l; [contradiction|reflexivity]. Qed.

Lemma after_fetch_post (startedAt : number) (s : Settle) (w : World)
    (pools deduped : list Pool.t) :
  fetched s = Some pools ->
  applyCooldown config (tCooldown s) (notifyState w)
                (List.filter (matches config) pools) = deduped ->
  deduped <> [] ->
  MonitorConfig.larkWebhookUrl config <> "" ->
  after_fetch config startedAt s w
  = (w, Some (AwaitWebhook startedAt deduped),
     [LogFetched (length pools);
      LogMatched (length (List.filter (matches config) pools));
      LogAfterCooldown (length deduped); PostWebhook deduped]).
Proof.
  intros H1 H2 H3 H4. unfold after_fetch. rewrite H1. cbv zeta. rewrite H2.
  rewrite (length_eqb_0 _ H3).
  destruct (String.eqb_spec (MonitorConfig.larkWebhookUrl config) "") as [Heq|_];
    [contradiction|reflexivity].
Qed.

Lemma after_fetch_skip (startedAt : number) (s : Settle) (w : World)
    (pools deduped : list Pool.t) :
  fetched s = Some pools ->
  applyCooldown config (tCooldown s) (notifyState w)
                (List.filter (matches config) pools) = deduped ->
  deduped <> [] ->
  MonitorConfig.larkWebhookUrl config = "" ->
  after_fetch config startedAt s w
  = (mkWorld (running w) (recordNotified (tNotified s) deduped (notifyState w)) (disk w),
     Some (AwaitPersist startedAt),
     [LogFetched (length pools);
      LogMatched (length (List.filter (matches config) pools));
      LogAfterCooldown (length deduped); WarnNoWebhook;
      LogNotified (length deduped); CallPersist]).
Proof.
  intros H1 H2 H3 H4. unfold after_fetch. rewrite H1. cbv zeta. rewrite H2.
  rewrite (length_eqb_0 _ H3), H4. reflexivity.
Qed.

Lemma after_webhook_failed (startedAt : number) (deduped : list Pool.t)
    (s : Settle) (w : World) :
  webhook s <> WebhookOk ->
  after_webhook startedAt deduped s w
  = (mkWorld false (notifyState w) (disk w), None,
     [LogRunFailed; LogRunEnd (JS.sub (tEnd s) startedAt)]).
Proof.
  intros H. unfold after_webhook.
  destruct (webhook s); [contradiction|reflexivity..].
Qed.

(** A segment that ends the call lowers the flag; one that suspends again
    leaves it as it was. *)
Lemma resume_flag (s : Settle) (p : Pending) (w : World) :
  match (resume config s p w).1.2 with
  | None => running (resume config s p w).1.1 = false
  | Some _ => running (resume config s p w).1.1 = running w
  end.
Proof.
  destruct p as [startedAt|startedAt deduped|startedAt]; simpl.
  - unfold after_fetch. destruct (fetched s) as [pools|]; [|reflexivity].
    destruct (length _ =? 0)%nat; [reflexivity|].
    destruct (String.eqb _ _); reflexivity.
  - unfold after_webhook. destruct (webhook s); reflexivity.
  - unfold after_persist. destruct (fsFault s) as [[]|]; reflexivity.
Qed.

(** A call resumed after [fetchPools] is done within three segments. *)
Lemma settle_done (s : Settle) (startedAt : number) (w : World) :
  (settle config 3 s (Some (AwaitFetchPools startedAt)) w).1.2 = None /\
  running (settle config 3 s (Some (AwaitFetchPools startedAt)) w).1.1 = false.
Proof.
  cbn [settle resume]. unfold after_fetch.
  destruct (fetched s) as [pools|]; [|split; reflexivity].
  cbv zeta. destruct (length _ =? 0)%nat; [split; reflexivity|].
  destruct (String.eqb _ _).
  - cbn. unfold after_persist. cbn.
    destruct (fsFault s) as [[]|]; split; reflexivity.
  - cbn. unfold after_webhook.
    destruct (webhook s); cbn; [|split; reflexivity..].
    unfold after_persist. cbn. destruct (fsFault s) as [[]|]; split; reflexivity.
Qed.

End Cycle.

(** ** Poll runner: single flight *)

Lemma boot_single_flight (readFails : bool) (d : Disk) :
  single_flight (boot readFails d).1.
Proof.
  unfold boot. destruct (loadNotifiedState _ ∅) as [st evs]. left. split; reflexivity.
Qed.

Lemma step_single_flight (config : MonitorConfig.t) (sys sys' : Sys) (i : Input)
    (evs : list Event) :
  single_flight sys -> step config sys i evs sys' -> single_flight sys'.
Proof.
  intros Hinv Hstep.
  destruct Hstep as [t w ps w' k evs He|s p w ps1 ps2 w' k evs He];
    unfold single_flight in *; simpl in *.
  - unfold runOnce_enter in He. destruct (running w) eqn:Hr; inversion He; subst.
    + simpl. rewrite Hr. exact Hinv.
    + destruct Hinv as [[-> _]|(p & _ & Hrun)]; [|discriminate].
      right. exists (AwaitFetchPools t). split; reflexivity.
  - destruct Hinv as [[Hnil _]|(p0 & Hone & Hrun)].
    + destruct ps1; discriminate.
    + assert (ps1 = [] /\ ps2 = []) as [-> ->].
      { destruct ps1 as [|q [|q' ps1]]; simpl in Hone.
        - inversion Hone. split; reflexivity.
        - inversion Hone.
        - inversion Hone. }
      pose proof (resume_flag config s p w) as Hflag. rewrite He in Hflag.
      simpl in Hflag. destruct k as [p'|]; simpl.
      * right. exists p'. split; [reflexivity|]. rewrite Hflag. exact Hrun.
      * left. split; [reflexivity|exact Hflag].
Qed.

Lemma reachable_single_flight (config : MonitorConfig.t) (sys : Sys) :
  reachable config sys -> single_flight sys.
Proof.
  induction 1 as [readFails d|sys i evs sys' _ IH Hstep].
  - apply boot_single_flight.
  - eapply step_single_flight; eassumption.
Qed.

(** C7: a tick that fires while the flag [running] is up returns after
    the one log line: it changes nothing, starts nothing, and performs no
    fetch, no notify and no persist. In every reachable state the flag is up
    exactly when one call of [runOnce] is in progress, and there is never
    more than one. A call that starts with the flag down runs to its end
    whatever the outcome of the fetch, the webhook and the file system, and
    ends with the flag down; so does each segment that ends a call, through
    the [catch] block or not. *)
Theorem single_flight_guard :
  (forall (config : MonitorConfig.t) (sys sys' : Sys) (t : number) (evs : list Event),
     running (world sys) = true ->
     step config sys (Tick t) evs sys' ->
     sys' = sys /\ evs = [LogSkipRun] /\ existsb performs_io evs = false) /\
  (forall (config : MonitorConfig.t) (t : number) (s : Settle) (w : World),
     running w = true ->
     runOnce config t s w = (w, None, [LogSkipRun])) /\
  (forall (config : MonitorConfig.t) (sys : Sys),
     reachable config sys ->
     length (pending sys) <= 1 /\
     (running (world sys) = true <-> pending sys <> [])) /\
  (forall (config : MonitorConfig.t) (t : number) (s : Settle) (w : World),
     running w = false ->
     (runOnce config t s w).1.2 = None /\
     running (runOnce config t s w).1.1 = false) /\
  (forall (config : MonitorConfig.t) (s : Settle) (p : Pending) (w : World),
     (resume config s p w).1.2 = None ->
     running (resume config s p w).1.1 = false).
Proof.
  split; [|split; [|split; [|split]]].
  - intros config sys sys' t evs Hrun Hstep.
    inversion Hstep as [t' w ps w' k evs' He|]; subst. simpl in Hrun.
    unfold runOnce_enter in He. rewrite Hrun in He. inversion He; subst.
    repeat split.
  - intros config t s w Hrun. unfold runOnce, runOnce_enter. rewrite Hrun.
    reflexivity.
  - intros config sys Hsys.
    destruct (reachable_single_flight config sys Hsys) as [[Hp Hr]|(p & Hp & Hr)];
      rewrite Hp, Hr; simpl.
    + split; [lia|]. split; [discriminate|congruence].
    + split; [lia|]. split; [discriminate|reflexivity].
  - intros config t s w Hrun. unfold runOnce, runOnce_enter. rewrite Hrun.
    pose proof (settle_done config s t (mkWorld true (notifyState w) (disk w)))
      as [Hk Hr].
    destruct (settle config 3 s _ _) as [[w2 k2] evs2]. simpl in *. auto.
  - intros config s p w Hk.
    pose proof (resume_flag config s p w) as Hflag. rewrite Hk in Hflag. exact Hflag.
Qed.

(** Whatever a tick leads to while a cycle waits for the webhook, it is
    the state the tick found. *)
Lemma single_flight_guard_witness :
  let cfg := configWith "https://hook" (JS.of_Z 86400000) in
  let A := samplePool "0xAA" (JS.of_Z 4000) (JS.of_Z 2000) (JS.of_Z 150000) in
  let sys := mkSys (mkWorld true ∅ emptyDisk) [AwaitWebhook (JS.of_Z 1) [A]] in
  step cfg sys (Tick (JS.of_Z 2)) [LogSkipRun] sys /\
  (sys = sys /\ [LogSkipRun] = [LogSkipRun] /\ existsb performs_io [LogSkipRun] = false).
Proof.
  intros cfg A sys.
  assert (Hstep : step cfg sys (Tick (JS.of_Z 2)) [LogSkipRun] sys).
  { exact (step_tick cfg (JS.of_Z 2) (mkWorld true ∅ emptyDisk)
             [AwaitWebhook (JS.of_Z 1) [A]] _ _ _ eq_refl). }
  split; [exact Hstep|].
  exact (proj1 single_flight_guard cfg sys sys (JS.of_Z 2) [LogSkipRun] eq_refl Hstep).
Defined.

(** A tick while a cycle waits for the webhook: nothing happens. *)
Example tick_while_running :
  let cfg := configWith "https://hook" (JS.of_Z 86400000) in
  let A := samplePool "0xAA" (JS.of_Z 4000) (JS.of_Z 2000) (JS.of_Z 150000) in
  let s := mkSettle (Some [A]) WebhookOk None (JS.of_Z 10) (JS.of_Z 20) (JS.of_Z 30) in
  let sys0 := mkSys (idle ∅ emptyDisk) [] in
  let sys1 := mkSys (mkWorld true ∅ emptyDisk) [AwaitFetchPools (JS.of_Z 1)] in
  let sys2 := mkSys (mkWorld true ∅ emptyDisk) [AwaitWebhook (JS.of_Z 1) [A]] in
  step cfg sys0 (Tick (JS.of_Z 1)) [LogRunStart; CallFetchPools] sys1 /\
  step cfg sys1 (Settles (AwaitFetchPools (JS.of_Z 1)) s)
       [LogFetched 1; LogMatched 1; LogAfterCooldown 1; PostWebhook [A]] sys2 /\
  step cfg sys2 (Tick (JS.of_Z 2)) [LogSkipRun] sys2.
Proof.
  intros cfg A s sys0 sys1 sys2. split; [|split].
  - exact (step_tick cfg (JS.of_Z 1) (idle ∅ emptyDisk) [] _ _ _ eq_refl).
  - exact (step_resume cfg s (AwaitFetchPools (JS.of_Z 1)) (mkWorld true ∅ emptyDisk)
             [] [] _ _ _ eq_refl).
  - exact (step_tick cfg (JS.of_Z 2) (mkWorld true ∅ emptyDisk)
             [AwaitWebhook (JS.of_Z 1) [A]] _ _ _ eq_refl).
Qed.

(** ** Poll runner: cycles that leave the state alone *)

Lemma runOnce_idle (config : MonitorConfig.t) (t : number) (s : Settle) (w : World) :
  running w = false ->
  runOnce config t s w
  = let '(w2, k2, evs2) :=
      settle config 3 s (Some (AwaitFetchPools t))
             (mkWorld true (notifyState w) (disk w)) in
    (w2, k2, [LogRunStart; CallFetchPools] ++ evs2).
Proof. intros Hrun. unfold runOnce, runOnce_enter. rewrite Hrun. reflexivity. Qed.

(** C8: when nothing is left after the threshold filter and the cooldown
    filter, the cycle ends having changed nothing: the service, its
    notify-state map and the disk are as at the start of the cycle, the
    webhook is not called and [persist()] is not called. *)
Theorem empty_batch_changes_nothing (config : MonitorConfig.t) (t : number)
    (s : Settle) (w : World) (pools : list Pool.t) :
  running w = false ->
  fetched s = Some pools ->
  applyCooldown config (tCooldown s) (notifyState w)
                (List.filter (matches config) pools) = [] ->
  (runOnce config t s w).1.1 = w /\
  (runOnce config t s w).1.2 = None /\
  (runOnce config t s w).2
  = [LogRunStart; CallFetchPools; LogFetched (length pools);
     LogMatched (length (List.filter (matches config) pools));
     LogAfterCooldown 0; LogNoPools; LogRunEnd (JS.sub (tEnd s) t)] /\
  existsb performs_persist (runOnce config t s w).2 = false /\
  existsb performs_notify (runOnce config t s w).2 = false /\
  forall w0 : World,
    notifyState w0 = notifyState w ->
    notifyState (after_fetch config t s w0).1.1 = notifyState w0 /\
    disk (after_fetch config t s w0).1.1 = disk w0 /\
    (after_fetch config t s w0).1.2 = None.
Proof.
  intros Hrun Hfetched Hempty.
  assert (Hout : runOnce config t s w
                 = (w, None,
                    [LogRunStart; CallFetchPools; LogFetched (length pools);
                     LogMatched (length (List.filter (matches config) pools));
                     LogAfterCooldown 0; LogNoPools; LogRunEnd (JS.sub (tEnd s) t)])).
  { rewrite (runOnce_idle config t s w Hrun). cbn [settle resume].
    rewrite (after_fetch_empty config t s (mkWorld true (notifyState w) (disk w))
               pools Hfetched Hempty). cbn.
    rewrite (world_idle_eta w Hrun). reflexivity. }
  rewrite Hout. repeat split.
  all: rewrite (after_fetch_empty config t s w0 pools Hfetched); try reflexivity.
  all: rewrite H; exact Hempty.
Qed.

(** The second cycle of the scenario: the pool was notified an hour ago and
    its volume has not changed. *)
Lemma empty_batch_changes_nothing_witness :
  let cfg := configWith "https://hook" (JS.of_Z 86400000) in
  let t0 := JS.of_Z 1700000000000 in
  let hour := JS.add t0 (JS.of_Z 3600000) in
  let A := samplePool "0xAA" (JS.of_Z 4000) (JS.of_Z 2000) (JS.of_Z 150000) in
  let st : Store := {[ "0xaa" := NotifyState.mk t0 (JS.of_Z 150000) ]} in
  let w := idle st (mkDisk (Some (payload_of st)) None) in
  let s := mkSettle (Some [A]) WebhookOk None hour hour hour in
  (runOnce cfg hour s w).1.1 = w /\
  existsb performs_persist (runOnce cfg hour s w).2 = false.
Proof.
  intros cfg t0 hour A st w s.
  destruct (empty_batch_changes_nothing cfg hour s w [A])
    as (Hw & _ & _ & Hp & _); [reflexivity|reflexivity|vm_compute; reflexivity|].
  split; [exact Hw|exact Hp].
Defined.

(** C4: when the webhook answers with a status that is not ok (or the POST
    itself fails), after the pools were fetched and a batch was selected,
    the cycle is aborted: the notify-state map is not changed,
    [persist()] is not called and the disk is not touched, so the next
    cycle starts from the state the failed cycle started from. *)
Theorem notifier_failure_aborts_cycle (config : MonitorConfig.t) (t : number)
    (s : Settle) (w : World) (pools deduped : list Pool.t) :
  running w = false ->
  fetched s = Some pools ->
  applyCooldown config (tCooldown s) (notifyState w)
                (List.filter (matches config) pools) = deduped ->
  deduped <> [] ->
  MonitorConfig.larkWebhookUrl config <> "" ->
  webhook s <> WebhookOk ->
  (runOnce config t s w).1.1 = w /\
  (runOnce config t s w).1.2 = None /\
  (runOnce config t s w).2
  = [LogRunStart; CallFetchPools; LogFetched (length pools);
     LogMatched (length (List.filter (matches config) pools));
     LogAfterCooldown (length deduped); PostWebhook deduped;
     LogRunFailed; LogRunEnd (JS.sub (tEnd s) t)] /\
  existsb performs_persist (runOnce config t s w).2 = false /\
  (forall (t' : number) (s' : Settle),
     runOnce config t' s' (runOnce config t s w).1.1 = runOnce config t' s' w) /\
  forall w0 : World,
    notifyState (after_webhook t deduped s w0).1.1 = notifyState w0 /\
    disk (after_webhook t deduped s w0).1.1 = disk w0 /\
    (after_webhook t deduped s w0).1.2 = None /\
    existsb performs_persist (after_webhook t deduped s w0).2 = false.
Proof.
  intros Hrun Hfetched Hbatch Hne Hurl Hbad.
  assert (Hout : runOnce config t s w
                 = (w, None,
                    [LogRunStart; CallFetchPools; LogFetched (length pools);
                     LogMatched (length (List.filter (matches config) pools));
                     LogAfterCooldown (length deduped); PostWebhook deduped;
                     LogRunFailed; LogRunEnd (JS.sub (tEnd s) t)])).
  { rewrite (runOnce_idle config t s w Hrun). cbn [settle resume].
    rewrite (after_fetch_post config t s (mkWorld true (notifyState w) (disk w))
               pools deduped Hfetched Hbatch Hne Hurl).
    cbn [settle resume].
    rewrite (after_webhook_failed t deduped s _ Hbad). cbn.
    rewrite (world_idle_eta w Hrun). reflexivity. }
  rewrite Hout. repeat split.
  all: rewrite (after_webhook_failed t deduped s w0 Hbad); reflexivity.
Qed.

(** The first cycle of the scenario with a webhook that answers 500. *)
Lemma notifier_failure_aborts_cycle_witness :
  let cfg := configWith "https://hook" (JS.of_Z 86400000) in
  let t0 := JS.of_Z 1700000000000 in
  let A := samplePool "0xAA" (JS.of_Z 4000) (JS.of_Z 2000) (JS.of_Z 150000) in
  let w := idle ∅ emptyDisk in
  let s := mkSettle (Some [A]) WebhookBadStatus None t0 t0 t0 in
  (runOnce cfg t0 s w).1.1 = w /\
  existsb performs_persist (runOnce cfg t0 s w).2 = false.
Proof.
  intros cfg t0 A w s.
  destruct (notifier_failure_aborts_cycle cfg t0 s w [A] [A])
    as (Hw & _ & _ & Hp & _);
    [reflexivity|reflexivity|vm_compute; reflexivity|discriminate|discriminate
    |discriminate|].
  split; [exact Hw|exact Hp].
Defined.

(** ** Poll runner: when records are written *)

(** A segment changes the notify-state map only when the notify step has
    returned normally: the webhook answered ok, or no webhook is configured
    and [notifyLark] returned at once. *)
Lemma store_changes_after_notify_returns (config : MonitorConfig.t) (s : Settle)
    (p : Pending) (w : World) :
  notifyState (resume config s p w).1.1 <> notifyState w ->
  (exists startedAt deduped,
      p = AwaitWebhook startedAt deduped /\ webhook s = WebhookOk) \/
  (exists startedAt,
      p = AwaitFetchPools startedAt /\ MonitorConfig.larkWebhookUrl config = "").
Proof.
  destruct p as [startedAt|startedAt deduped|startedAt]; simpl.
  - unfold after_fetch. destruct (fetched s) as [pools|]; [|intros []; reflexivity].
    cbv zeta. destruct (length _ =? 0)%nat; [intros []; reflexivity|].
    destruct (String.eqb_spec (MonitorConfig.larkWebhookUrl config) "") as [Hurl|_];
      [|intros []; reflexivity].
    intros _. right. eauto.
  - unfold after_webhook. destruct (webhook s) eqn:Hw; simpl;
      [|intros []; reflexivity..].
    intros _. left. eauto.
  - unfold after_persist. destruct (fsFault s) as [[]|]; intros []; reflexivity.
Qed.

(** C2, on the code: with [LARK_WEBHOOK_URL] unset, a cycle that selects a
    batch logs the warning and posts nothing, and still writes a record for
    every pool of the batch and persists the map, where the specification
    lets a record be written only after a notification was sent. In the
    next cycle, with the webhook now configured, the pool is held back by
    the cooldown although no notification for it was ever sent. *)
Theorem missing_webhook_records_unsent_batch :
  let t0 := JS.of_Z 1700000000000 in
  let hour := JS.add t0 (JS.of_Z 3600000) in
  let A := samplePool "0xAA" (JS.of_Z 4000) (JS.of_Z 2000) (JS.of_Z 150000) in
  let s := mkSettle (Some [A]) WebhookOk None t0 t0 t0 in
  let out := runOnce defaultConfig t0 s (idle ∅ emptyDisk) in
  let recorded : Store := {[ "0xaa" := NotifyState.mk t0 (JS.of_Z 150000) ]} in
  MonitorConfig.larkWebhookUrl defaultConfig = "" /\
  out.2 = [LogRunStart; CallFetchPools; LogFetched 1; LogMatched 1;
           LogAfterCooldown 1; WarnNoWebhook; LogNotified 1; CallPersist;
           FsMkdir; FsWriteTmp (payload_of recorded); FsRename;
           LogRunEnd (JS.sub t0 t0)] /\
  existsb performs_notify out.2 = false /\
  notifyState out.1.1 = recorded /\
  store_file (disk out.1.1) = Some (payload_of recorded) /\
  applyCooldown (configWith "https://hook" (JS.of_Z 86400000)) hour
                (notifyState out.1.1) [A] = [].
Proof. vm_compute. repeat split; reflexivity. Qed.

(* ===================================================================== *)
(** * Further properties of the code *)
(* ===================================================================== *)

(** ** The order of numbers *)

Lemma le_ge_swap (x y : number) : JS.le x y = JS.ge y x.
Proof.
  unfold JS.le, JS.ge, SFleb.
  destruct x as [sx|sx| |sx mx ex], y as [sy|sy| |sy my ey]; simpl; try reflexivity;
    try (destruct sx; reflexivity); try (destruct sy; reflexivity);
    try (destruct sx, sy; reflexivity).
  destruct sx, sy; try reflexivity;
    rewrite (Z.compare_antisym ex ey);
    destruct (ex ?= ey)%Z; simpl; try reflexivity;
    change (Pos.compare_cont Eq) with Pos.compare;
    rewrite (Pos.compare_antisym mx my);
    destruct (mx ?= my)%positive; reflexivity.
Qed.

(** [>=] is transitive, on all numbers. *)
Lemma ge_trans (x y z : number) :
  JS.ge x y = true -> JS.ge y z = true -> JS.ge x z = true.
Proof.
  unfold JS.ge.
  destruct x as [sx|sx| |sx mx ex], y as [sy|sy| |sy my ey], z as [sz|sz| |sz mz ez];
    simpl; try discriminate; try reflexivity;
    try (destruct sx; simpl; try discriminate; try reflexivity);
    try (destruct sy; simpl; try discriminate; try reflexivity);
    try (destruct sz; simpl; try discriminate; try reflexivity);
    try (intros; discriminate).
  all: change (Pos.compare_cont Eq) with Pos.compare.
  all: intros Hxy Hyz; order_cases; simpl in *;
    try discriminate; try reflexivity; subst; try lia.
Qed.

(** ** Threshold filter and cooldown engine, continued *)

(** X1: raising minimums can only remove matches. If each minimum of [lo]
    is [<=] the one of [hi], every pool that passes the filter of [hi]
    passes the filter of [lo], and the pools selected under [hi] are, in
    order, among those selected under [lo]. *)
Theorem matches_monotone (lo hi : MonitorConfig.t) :
  JS.le (MonitorConfig.minApr lo) (MonitorConfig.minApr hi) = true ->
  JS.le (MonitorConfig.minEarnFee lo) (MonitorConfig.minEarnFee hi) = true ->
  JS.le (MonitorConfig.minVolume lo) (MonitorConfig.minVolume hi) = true ->
  (forall pool : Pool.t, matches hi pool = true -> matches lo pool = true) /\
  (forall pools : list Pool.t,
     sublist (List.filter (matches hi) pools) (List.filter (matches lo) pools)).
Proof.
  rewrite !le_ge_swap. intros Hapr Hfee Hvol.
  assert (Hmono : forall pool, matches hi pool = true -> matches lo pool = true).
  { intros pool. unfold matches. rewrite !andb_true_iff.
    intros [[H1 H2] H3]. repeat split; eapply ge_trans; eassumption. }
  split; [exact Hmono|].
  induction pools as [|pool pools IH]; simpl.
  - constructor.
  - destruct (matches hi pool) eqn:Hhi.
    + rewrite (Hmono pool Hhi). apply sublist_skip, IH.
    + destruct (matches lo pool); [apply sublist_cons|]; exact IH.
Qed.

Lemma matches_monotone_witness :
  let hi := MonitorConfig.mk "" "" (JS.of_Z 5) (JS.of_Z 10)
              (JS.of_Z 5000) (JS.of_Z 1000) (JS.of_Z 100000) "" JS.zero "" in
  let A := samplePool "0xAA" (JS.of_Z 6000) (JS.of_Z 2000) (JS.of_Z 150000) in
  matches hi A = true /\ matches defaultConfig A = true.
Proof.
  intros hi A.
  assert (Hhi : matches hi A = true) by reflexivity.
  split; [exact Hhi|].
  apply (proj1 (matches_monotone defaultConfig hi eq_refl eq_refl eq_refl) A Hhi).
Defined.

(** X2: the growth override is monotone in the current volume. When a pool
    with a prior record is kept because its volume reaches the growth
    threshold, a pool with the same key and a volume at least as large is
    kept too, at any time and for any cooldown. *)
Theorem growth_override_monotone (config : MonitorConfig.t) (now : number)
    (st : Store) (pool pool' : Pool.t) (prior : NotifyState.t) :
  st !! toLowerCase (Pool.address pool) = Some prior ->
  toLowerCase (Pool.address pool') = toLowerCase (Pool.address pool) ->
  JS.ge (Pool.volume pool) (volumeIncreaseThreshold prior) = true ->
  JS.ge (Pool.volume pool') (Pool.volume pool) = true ->
  cooldownKeep config now st pool' = true.
Proof.
  intros Hprior Hkey Hgrow Hge. unfold cooldownKeep. rewrite Hkey, Hprior.
  rewrite (ge_trans _ _ _ Hge Hgrow). reflexivity.
Qed.

Lemma growth_override_monotone_witness :
  let t0 := JS.of_Z 1700000000000 in
  let st : Store := {[ "0xaa" := NotifyState.mk t0 (JS.of_Z 150000) ]} in
  let A (v : Z) := samplePool "0xAA" (JS.of_Z 4000) (JS.of_Z 2000) (JS.of_Z v) in
  cooldownKeep defaultConfig t0 st (A 250000%Z) = true.
Proof.
  intros t0 st A.
  apply (growth_override_monotone defaultConfig t0 st (A 180000%Z) (A 250000%Z)
           (NotifyState.mk t0 (JS.of_Z 150000))); reflexivity.
Defined.

(** X3: the cooldown engine decides pool by pool. The batch of a
    concatenation is the concatenation of the batches, the batch is a
    sublist of the input (order kept), filtering a batch again changes
    nothing, and nothing is merged: a pool that is kept and occurs twice
    among the fetched pools occurs twice in the batch. *)
Theorem applyCooldown_pointwise (config : MonitorConfig.t) (now : number) (st : Store) :
  (forall ps1 ps2 : list Pool.t,
     applyCooldown config now st (ps1 ++ ps2)
     = applyCooldown config now st ps1 ++ applyCooldown config now st ps2) /\
  (forall pools : list Pool.t, sublist (applyCooldown config now st pools) pools) /\
  (forall pools : list Pool.t,
     applyCooldown config now st (applyCooldown config now st pools)
     = applyCooldown config now st pools) /\
  (forall (pool : Pool.t) (ps1 ps2 ps3 : list Pool.t),
     cooldownKeep config now st pool = true ->
     applyCooldown config now st (ps1 ++ pool :: ps2 ++ pool :: ps3)
     = applyCooldown config now st ps1 ++ pool ::
       applyCooldown config now st ps2 ++ pool :: applyCooldown config now st ps3).
Proof.
  assert (Happ : forall ps1 ps2,
             applyCooldown config now st (ps1 ++ ps2)
             = applyCooldown config now st ps1 ++ applyCooldown config now st ps2).
  { intros ps1 ps2. unfold applyCooldown. apply List.filter_app. }
  split; [exact Happ|]. split; [|split].
  - induction pools as [|pool pools IH]; simpl; [constructor|].
    destruct (cooldownKeep config now st pool);
      [apply sublist_skip|apply sublist_cons]; exact IH.
  - induction pools as [|pool pools IH]; simpl; [reflexivity|].
    destruct (cooldownKeep config now st pool) eqn:Hk; simpl; [|exact IH].
    rewrite Hk. f_equal. exact IH.
  - intros pool ps1 ps2 ps3 Hk.
    rewrite Happ. f_equal. simpl. rewrite Hk. f_equal.
    rewrite Happ. f_equal. simpl. rewrite Hk. reflexivity.
Qed.

(** ** Recording a batch *)

Lemma upsert_lookup (now : number) (pool : Pool.t) (st : Store) (k : string) :
  <[toLowerCase (Pool.address pool) := NotifyState.mk now (Pool.volume pool)]> st !! k
  = if String.eqb (toLowerCase (Pool.address pool)) k
    then Some (NotifyState.mk now (Pool.volume pool))
    else st !! k.
Proof.
  destruct (String.eqb_spec (toLowerCase (Pool.address pool)) k) as [->|Hne].
  - apply lookup_insert_eq.
  - apply lookup_insert_ne. exact Hne.
Qed.

Lemma recordNotified_lookup (now : number) (deduped : list Pool.t) (st : Store)
    (k : string) :
  recordNotified now deduped st !! k
  = match last (List.filter
                  (fun p => String.eqb (toLowerCase (Pool.address p)) k) deduped) with
    | Some p => Some (NotifyState.mk now (Pool.volume p))
    | None => st !! k
    end.
Proof.
  unfold recordNotified. revert st.
  induction deduped as [|pool rest IH]; intros st; cbn [foldl List.filter].
  - reflexivity.
  - rewrite IH, upsert_lookup.
    destruct (String.eqb (toLowerCase (Pool.address pool)) k); [|reflexivity].
    clear IH. destruct (List.filter _ rest) as [|q rest']; [reflexivity|].
    change (last (pool :: q :: rest')) with (last (q :: rest')).
    destruct (last (q :: rest')) as [p|] eqn:Hl; [reflexivity|].
    apply last_None in Hl. discriminate.
Qed.

(** X4: what the loop of lines 84-89 leaves in the map. Under a key the
    record is the one of the last pool of the batch with that lower-cased
    address, stamped with the time of the notification; without such a
    pool the record is the one the map held. So every pool of the batch
    has a record stamped [now], and records of other keys are not touched. *)
Theorem recordNotified_records (now : number) (deduped : list Pool.t) (st : Store) :
  (forall k : string,
     recordNotified now deduped st !! k
     = match last (List.filter
                     (fun p => String.eqb (toLowerCase (Pool.address p)) k) deduped) with
       | Some p => Some (NotifyState.mk now (Pool.volume p))
       | None => st !! k
       end) /\
  (forall pool : Pool.t, In pool deduped ->
     exists pool' : Pool.t,
       In pool' deduped /\
       toLowerCase (Pool.address pool') = toLowerCase (Pool.address pool) /\
       recordNotified now deduped st !! toLowerCase (Pool.address pool)
       = Some (NotifyState.mk now (Pool.volume pool'))) /\
  (forall k : string,
     (forall pool, In pool deduped -> toLowerCase (Pool.address pool) <> k) ->
     recordNotified now deduped st !! k = st !! k).
Proof.
  split; [|split].
  - intros k. apply recordNotified_lookup.
  - intros pool Hin. rewrite recordNotified_lookup.
    set (f := fun p => String.eqb (toLowerCase (Pool.address p))
                                  (toLowerCase (Pool.address pool))).
    assert (Hpool : In pool (List.filter f deduped)).
    { apply filter_In. split; [exact Hin|]. apply String.eqb_refl. }
    destruct (last (List.filter f deduped)) as [p|] eqn:Hl.
    + apply last_Some_elem_of, list_elem_of_In, filter_In in Hl as [Hp Hf].
      exists p. split; [exact Hp|]. split; [|reflexivity].
      apply String.eqb_eq. exact Hf.
    + apply last_None in Hl. rewrite Hl in Hpool. destruct Hpool.
  - intros k Hk. rewrite recordNotified_lookup.
    destruct (last _) as [p|] eqn:Hl; [|reflexivity].
    apply last_Some_elem_of, list_elem_of_In, filter_In in Hl as [Hp Hf].
    apply String.eqb_eq in Hf. destruct (Hk p Hp Hf).
Qed.

(** ** Whole cycles and restarts *)

Lemma recordNotified_keys_normalized (now : number) (deduped : list Pool.t) (st : Store) :
  keys_normalized st -> keys_normalized (recordNotified now deduped st).
Proof.
  unfold recordNotified. revert st.
  induction deduped as [|pool rest IH]; intros st Hst; simpl; [exact Hst|].
  apply IH, upsert_keys_normalized, Hst.
Qed.

Lemma recordNotified_finite (now : number) (deduped : list Pool.t) (st : Store) :
  JS.isFinite now = true ->
  (forall pool, In pool deduped -> JS.isFinite (Pool.volume pool) = true) ->
  records_finite st -> records_finite (recordNotified now deduped st).
Proof.
  intros Hnow Hvol Hst k r. rewrite recordNotified_lookup.
  destruct (last _) as [p|] eqn:Hl; [|apply Hst].
  apply last_Some_elem_of, list_elem_of_In, filter_In in Hl as [Hp _].
  intros [= <-]. unfold finite_state. simpl. rewrite Hnow, (Hvol p Hp). reflexivity.
Qed.

(** The cycle up to the suspension in [persistNotifiedState], when the
    webhook is configured and answers ok. *)
Lemma runOnce_notified (config : MonitorConfig.t) (t : number) (s : Settle) (w : World)
    (pools deduped : list Pool.t) :
  running w = false ->
  fetched s = Some pools ->
  applyCooldown config (tCooldown s) (notifyState w)
                (List.filter (matches config) pools) = deduped ->
  deduped <> [] ->
  MonitorConfig.larkWebhookUrl config <> "" ->
  webhook s = WebhookOk ->
  runOnce config t s w
  = let st' := recordNotified (tNotified s) deduped (notifyState w) in
    let '(d', ok, fsevs) := persistNotifiedState (fsFault s) st' (disk w) in
    (mkWorld false st' d', None,
     [LogRunStart; CallFetchPools; LogFetched (length pools);
      LogMatched (length (List.filter (matches config) pools));
      LogAfterCooldown (length deduped); PostWebhook deduped;
      LogNotified (length deduped); CallPersist]
     ++ fsevs
     ++ (if ok then [] else [LogRunFailed])
     ++ [LogRunEnd (JS.sub (tEnd s) t)]).
Proof.
  intros Hrun Hfetched Hbatch Hne Hurl Hok.
  rewrite (runOnce_idle config t s w Hrun). cbn [settle resume].
  rewrite (after_fetch_post config t s (mkWorld true (notifyState w) (disk w))
             pools deduped Hfetched Hbatch Hne Hurl).
  cbn [settle resume]. unfold after_webhook. rewrite Hok.
  unfold after_notify. cbn [settle resume]. unfold after_persist. cbn.
  destruct (fsFault s) as [[]|]; reflexivity.
Qed.

(** X5: a successful cycle followed by a restart. When the webhook
    answers ok and the store is written, the notification is posted before
    anything is recorded, the map holds the records of the batch, and the
    store file holds the snapshot of that very map. If the map had
    lower-case keys and finite records and the batch has finite volumes, a
    service started on this disk begins with the same map (-0 read back as
    0), idle, and with nothing logged but the count. *)
Theorem restart_after_successful_cycle (config : MonitorConfig.t) (t : number)
    (s : Settle) (w : World) (pools deduped : list Pool.t) :
  running w = false ->
  fetched s = Some pools ->
  applyCooldown config (tCooldown s) (notifyState w)
                (List.filter (matches config) pools) = deduped ->
  deduped <> [] ->
  MonitorConfig.larkWebhookUrl config <> "" ->
  webhook s = WebhookOk ->
  fsFault s = None ->
  let st' := recordNotified (tNotified s) deduped (notifyState w) in
  let out := runOnce config t s w in
  out.1.1 = mkWorld false st' (mkDisk (Some (payload_of st')) None) /\
  out.1.2 = None /\
  (exists evs1 evs2 evs3,
      out.2 = evs1 ++ PostWebhook deduped :: evs2 ++ CallPersist :: evs3 /\
      existsb performs_persist evs1 = false /\
      existsb performs_notify (evs2 ++ CallPersist :: evs3) = false) /\
  (keys_normalized (notifyState w) -> records_finite (notifyState w) ->
   JS.isFinite (tNotified s) = true ->
   (forall pool, In pool deduped -> JS.isFinite (Pool.volume pool) = true) ->
   boot false (disk out.1.1)
   = (mkSys (mkWorld false (normalize_state <$> st') (disk out.1.1)) [],
      [LogLoaded (size (normalize_state <$> st'))])).
Proof.
  intros Hrun Hfetched Hbatch Hne Hurl Hok Hfs st' out.
  assert (Hout : out
                 = (mkWorld false st' (mkDisk (Some (payload_of st')) None), None,
                    [LogRunStart; CallFetchPools; LogFetched (length pools);
                     LogMatched (length (List.filter (matches config) pools));
                     LogAfterCooldown (length deduped); PostWebhook deduped;
                     LogNotified (length deduped); CallPersist;
                     FsMkdir; FsWriteTmp (payload_of st'); FsRename;
                     LogRunEnd (JS.sub (tEnd s) t)])).
  { unfold out.
    rewrite (runOnce_notified config t s w pools deduped Hrun Hfetched Hbatch Hne Hurl Hok).
    rewrite Hfs. reflexivity. }
  rewrite Hout. cbn [fst snd]. split; [reflexivity|]. split; [reflexivity|]. split.
  - eexists [LogRunStart; CallFetchPools; LogFetched _; LogMatched _; LogAfterCooldown _],
            [LogNotified _], _.
    repeat split.
  - intros Hkeys Hfin Hnow Hvol. unfold boot, readFile. cbn.
    assert (Heq : foldl loadEntry ∅ (snapshot_entries st') = normalize_state <$> st').
    { apply reload_eq; [|reflexivity|].
      - apply recordNotified_finite; assumption.
      - apply recordNotified_keys_normalized; assumption. }
    rewrite Heq. reflexivity.
Qed.

Lemma restart_after_successful_cycle_witness :
  let cfg := configWith "https://hook" (JS.of_Z 86400000) in
  let t0 := JS.of_Z 1700000000000 in
  let A := samplePool "0xAA" (JS.of_Z 4000) (JS.of_Z 2000) (JS.of_Z 150000) in
  let s := mkSettle (Some [A]) WebhookOk None t0 t0 t0 in
  let out := runOnce cfg t0 s (idle ∅ emptyDisk) in
  (boot false (disk out.1.1)).1
  = mkSys (idle {[ "0xaa" := NotifyState.mk t0 (JS.of_Z 150000) ]} (disk out.1.1)) [].
Proof.
  intros cfg t0 A s out.
  destruct (restart_after_successful_cycle cfg t0 s (idle ∅ emptyDisk) [A] [A])
    as (_ & _ & _ & Hboot);
    [reflexivity|reflexivity|vm_compute; reflexivity|discriminate|discriminate
    |reflexivity|reflexivity|].
  fold out in Hboot. rewrite Hboot.
  - reflexivity.
  - intros k r. cbn. rewrite lookup_empty. discriminate.
  - intros k r. cbn. rewrite lookup_empty. discriminate.
  - reflexivity.
  - intros pool [<-|[]]. reflexivity.
Defined.

Lemma entry_record_nonfinite (r : NotifyState.t) :
  finite_state r = false -> entry_record (json_of_state r) = None.
Proof.
  destruct r as [t v]. unfold finite_state. simpl.
  destruct t as [st|st| |st mt et]; simpl;
    destruct v as [sv|sv| |sv mv ev]; simpl; try discriminate; reflexivity.
Qed.

(** X6: a record that holds a number that is not finite does not survive
    a restart. Such a number is written as [null], and [load()] skips the
    entry: the key is absent from the map loaded from the file that
    [persist()] wrote, so after a restart the pool counts as never
    notified. A pool whose volume the API reports as [1e999] gets such a
    record. *)
Theorem nonfinite_record_lost_on_restart (st : Store) (d : Disk) (k : string)
    (r : NotifyState.t) :
  keys_normalized st ->
  st !! k = Some r ->
  finite_state r = false ->
  let d' := (persistNotifiedState None st d).1.1 in
  (loadNotifiedState (readFile d') ∅).1 !! k = None /\
  (forall (config : MonitorConfig.t) (now : number) (pool : Pool.t),
     toLowerCase (Pool.address pool) = k ->
     cooldownKeep config now (notifyState (world (boot false d').1)) pool = true).
Proof.
  intros Hkeys Hk Hr d'.
  assert (Hnone : foldl loadEntry ∅ (snapshot_entries st) !! k = None).
  { rewrite foldl_loadEntry_lookup, lookup_empty.
    destruct (loaded_record k (snapshot_entries st) None) as [r'|] eqn:Hl; [|reflexivity].
    apply loaded_record_origin in Hl as [Hl|(a & j & Hin & Ha & Hj)]; [discriminate|].
    apply snapshot_entries_elem in Hin as (r0 & Hr0 & ->).
    rewrite (Hkeys _ _ Hr0) in Ha. subst a.
    assert (r0 = r) by congruence. subst r0.
    rewrite (entry_record_nonfinite r Hr) in Hj. discriminate. }
  split; [exact Hnone|].
  intros config now pool Hpool. unfold boot, readFile, cooldownKeep. cbn.
  rewrite Hpool, Hnone. reflexivity.
Qed.

Lemma nonfinite_record_lost_on_restart_witness :
  let t0 := JS.of_Z 1700000000000 in
  let A := samplePool "0xAA" (JS.of_Z 4000) (JS.of_Z 2000) JS.Infinity in
  let st := recordNotified t0 [A] ∅ in
  matches defaultConfig A = true /\
  st !! "0xaa" = Some (NotifyState.mk t0 JS.Infinity) /\
  (loadNotifiedState (readFile (persistNotifiedState None st emptyDisk).1.1) ∅).1
  !! "0xaa" = None.
Proof.
  intros t0 A st. split; [reflexivity|]. split; [reflexivity|].
  apply (nonfinite_record_lost_on_restart st emptyDisk "0xaa"
           (NotifyState.mk t0 JS.Infinity)).
  - apply recordNotified_keys_normalized. intros k r. rewrite lookup_empty. discriminate.
  - reflexivity.
  - reflexivity.
Defined.

(** X7: a failure while persisting. Whatever call fails ([mkdir], the
    write of the temporary file, or the rename), the cycle ends through the
    [catch] block with the flag down; the records of the batch stay in the
    map in memory, the notification has been posted, and the store file is
    what it was before the cycle. A service started from this disk does not
    know of the batch. *)
Theorem persist_failure_keeps_memory_not_disk (config : MonitorConfig.t) (t : number)
    (s : Settle) (w : World) (pools deduped : list Pool.t) (fault : FsFault) :
  running w = false ->
  fetched s = Some pools ->
  applyCooldown config (tCooldown s) (notifyState w)
                (List.filter (matches config) pools) = deduped ->
  deduped <> [] ->
  MonitorConfig.larkWebhookUrl config <> "" ->
  webhook s = WebhookOk ->
  fsFault s = Some fault ->
  let out := runOnce config t s w in
  running out.1.1 = false /\
  out.1.2 = None /\
  notifyState out.1.1 = recordNotified (tNotified s) deduped (notifyState w) /\
  store_file (disk out.1.1) = store_file (disk w) /\
  In (PostWebhook deduped) out.2 /\
  In LogRunFailed out.2 /\
  boot false (disk out.1.1)
  = (mkSys (mkWorld false (notifyState (world (boot false (disk w)).1)) (disk out.1.1)) [],
     (boot false (disk w)).2).
Proof.
  intros Hrun Hfetched Hbatch Hne Hurl Hok Hfs out. unfold out.
  rewrite (runOnce_notified config t s w pools deduped Hrun Hfetched Hbatch Hne Hurl Hok).
  rewrite Hfs. unfold boot, readFile.
  destruct fault; cbn;
    (repeat split; [tauto|tauto|]);
    destruct (store_file (disk w)) as [[data|]|]; cbn; try reflexivity;
    destruct (Object_entries data); reflexivity.
Qed.

Lemma persist_failure_keeps_memory_not_disk_witness :
  let cfg := configWith "https://hook" (JS.of_Z 86400000) in
  let t0 := JS.of_Z 1700000000000 in
  let A := samplePool "0xAA" (JS.of_Z 4000) (JS.of_Z 2000) (JS.of_Z 150000) in
  let s := mkSettle (Some [A]) WebhookOk (Some RenameFails) t0 t0 t0 in
  let out := runOnce cfg t0 s (idle ∅ emptyDisk) in
  notifyState out.1.1 = recordNotified t0 [A] ∅ /\
  store_file (disk out.1.1) = None.
Proof.
  intros cfg t0 A s out.
  destruct (persist_failure_keeps_memory_not_disk cfg t0 s (idle ∅ emptyDisk) [A] [A]
              RenameFails)
    as (_ & _ & Hmem & Hdisk & _);
    [reflexivity|reflexivity|vm_compute; reflexivity|discriminate|discriminate
    |reflexivity|reflexivity|].
  split; [exact Hmem|exact Hdisk].
Defined.

(** X8: a failure while fetching. When [fetchPools] throws, the cycle
    ends through the [catch] block: the service is as it was, the webhook
    is not called, nothing is recorded and nothing is persisted. *)
Theorem fetch_failure_aborts_cycle (config : MonitorConfig.t) (t : number)
    (s : Settle) (w : World) :
  running w = false ->
  fetched s = None ->
  runOnce config t s w
  = (w, None,
     [LogRunStart; CallFetchPools; LogRunFailed; LogRunEnd (JS.sub (tEnd s) t)]) /\
  existsb performs_notify (runOnce config t s w).2 = false /\
  existsb performs_persist (runOnce config t s w).2 = false.
Proof.
  intros Hrun Hfetched.
  assert (Hout : runOnce config t s w
                 = (w, None,
                    [LogRunStart; CallFetchPools; LogRunFailed;
                     LogRunEnd (JS.sub (tEnd s) t)])).
  { rewrite (runOnce_idle config t s w Hrun). cbn [settle resume].
    rewrite (after_fetch_failed config t s _ Hfetched). cbn.
    rewrite (world_idle_eta w Hrun). reflexivity. }
  rewrite Hout. repeat split.
Qed.

Lemma fetch_failure_aborts_cycle_witness :
  let t0 := JS.of_Z 1700000000000 in
  let s := mkSettle None WebhookOk None t0 t0 t0 in
  (runOnce defaultConfig t0 s (idle ∅ emptyDisk)).1.1 = idle ∅ emptyDisk.
Proof.
  intros t0 s.
  destruct (fetch_failure_aborts_cycle defaultConfig t0 s (idle ∅ emptyDisk))
    as (Hout & _); [reflexivity|reflexivity|].
  rewrite Hout. reflexivity.
Defined.

(** ** What a step of the event loop may change *)

Lemma resume_disk (config : MonitorConfig.t) (s : Settle) (p : Pending) (w : World) :
  disk (resume config s p w).1.1 <> disk w ->
  exists startedAt, p = AwaitPersist startedAt.
Proof.
  destruct p as [startedAt|startedAt deduped|startedAt]; simpl.
  - unfold after_fetch. destruct (fetched s) as [pools|]; [|intros []; reflexivity].
    cbv zeta. destruct (length _ =? 0)%nat; [intros []; reflexivity|].
    destruct (String.eqb _ _); intros []; reflexivity.
  - unfold after_webhook. destruct (webhook s); intros []; reflexivity.
  - eauto.
Qed.

(** X9: the frame of a step. A cron tick never changes the notify-state
    map or the disk and never posts or persists, whether it starts a cycle
    or is dropped. The disk changes only when a pending
    [persistNotifiedState] settles. The map changes only when the webhook
    has answered ok, or when [fetchPools] has settled and no webhook is
    configured. *)
Theorem step_frame (config : MonitorConfig.t) (sys sys' : Sys) (i : Input)
    (evs : list Event) :
  step config sys i evs sys' ->
  (forall t, i = Tick t ->
     notifyState (world sys') = notifyState (world sys) /\
     disk (world sys') = disk (world sys) /\
     existsb performs_notify evs = false /\
     existsb performs_persist evs = false) /\
  (disk (world sys') <> disk (world sys) ->
   exists startedAt s, i = Settles (AwaitPersist startedAt) s) /\
  (notifyState (world sys') <> notifyState (world sys) ->
   (exists startedAt deduped s,
       i = Settles (AwaitWebhook startedAt deduped) s /\ webhook s = WebhookOk) \/
   (exists startedAt s,
       i = Settles (AwaitFetchPools startedAt) s /\
       MonitorConfig.larkWebhookUrl config = "")).
Proof.
  intros Hstep.
  destruct Hstep as [t w ps w' k evs He|s p w ps1 ps2 w' k evs He]; cbn [world].
  - unfold runOnce_enter in He.
    destruct (running w); inversion He; subst; cbn.
    + split; [intros; repeat split|]. split; intros []; reflexivity.
    + split; [intros; repeat split|]. split; intros []; reflexivity.
  - split; [intros t Ht; discriminate|]. split.
    + intros Hd. destruct (resume_disk config s p w) as [startedAt ->].
      * rewrite He. exact Hd.
      * eauto.
    + intros Hst.
      destruct (store_changes_after_notify_returns config s p w)
        as [(startedAt & deduped & -> & Hok)|(startedAt & -> & Hurl)].
      * rewrite He. exact Hst.
      * left. eauto.
      * right. eauto.
Qed.

Lemma step_frame_witness :
  let A := samplePool "0xAA" (JS.of_Z 4000) (JS.of_Z 2000) (JS.of_Z 150000) in
  let st : Store := {[ "0xaa" := NotifyState.mk JS.zero JS.zero ]} in
  let sys := mkSys (idle st emptyDisk) [] in
  let sys' := mkSys (mkWorld true st emptyDisk) [AwaitFetchPools (JS.of_Z 1)] in
  notifyState (world sys') = notifyState (world sys) /\
  disk (world sys') = disk (world sys) /\
  existsb performs_notify [LogRunStart; CallFetchPools] = false /\
  existsb performs_persist [LogRunStart; CallFetchPools] = false.
Proof.
  intros A st sys sys'.
  apply (proj1 (step_frame defaultConfig sys sys' (Tick (JS.of_Z 1))
                  [LogRunStart; CallFetchPools]
                  (step_tick defaultConfig (JS.of_Z 1) (idle st emptyDisk) [] _ _ _ eq_refl))
           (JS.of_Z 1) eq_refl).
Defined.

(** ** Configuration *)

Lemma readNumber_finite (Number_of_string : string -> number) (env : gmap string string)
    (envKey : string) (fallback : number) :
  JS.isFinite fallback = true ->
  JS.isFinite (readNumber Number_of_string env envKey fallback) = true.
Proof.
  intros Hf. unfold readNumber.
  destruct (env !! envKey) as [raw|]; [|exact Hf].
  destruct (String.eqb raw ""); [exact Hf|].
  destruct (JS.isFinite (Number_of_string raw)) eqn:Hv; [exact Hv|exact Hf].
Qed.

(** X10: the configuration never holds a number that is not finite.
    Whatever the environment holds and whatever [Number] makes of it, the
    six numeric options of the configuration the constructor builds are
    finite, so none is NaN: a variable that is unset, empty, or does not
    parse to a finite number gives its default, and any other gives the
    number it parses to. Without any variable set the configuration is the
    default one, which has no webhook. *)
Theorem constructor_config_numbers_finite (Number_of_string : string -> number)
    (env : gmap string string) :
  let cfg := constructor_config Number_of_string env in
  (JS.isFinite (MonitorConfig.pages cfg) = true /\
   JS.isFinite (MonitorConfig.limit cfg) = true /\
   JS.isFinite (MonitorConfig.minApr cfg) = true /\
   JS.isFinite (MonitorConfig.minEarnFee cfg) = true /\
   JS.isFinite (MonitorConfig.minVolume cfg) = true /\
   JS.isFinite (MonitorConfig.notifyCooldownMs cfg) = true) /\
  (forall (envKey : string) (fallback : number),
     (env !! envKey = None \/ env !! envKey = Some "" \/
      exists raw, env !! envKey = Some raw /\
                  JS.isFinite (Number_of_string raw) = false) ->
     readNumber Number_of_string env envKey fallback = fallback) /\
  (forall (envKey raw : string) (fallback : number),
     env !! envKey = Some raw -> raw <> "" ->
     JS.isFinite (Number_of_string raw) = true ->
     readNumber Number_of_string env envKey fallback = Number_of_string raw) /\
  constructor_config Number_of_string ∅ = defaultConfig.
Proof.
  intros cfg. split; [|split; [|split]].
  - unfold cfg, constructor_config. cbn.
    repeat split; apply readNumber_finite; reflexivity.
  - intros envKey fallback [H|[H|(raw & H & Hraw)]]; unfold readNumber; rewrite H;
      try reflexivity.
    destruct (String.eqb raw ""); [reflexivity|]. rewrite Hraw. reflexivity.
  - intros envKey raw fallback H Hne Hfin. unfold readNumber. rewrite H.
    destruct (String.eqb_spec raw "") as [->|_]; [contradiction|].
    rewrite Hfin. reflexivity.
  - reflexivity.
Qed.

(** ** The card *)

Section CardLayout.
Variable toFixed1 : number -> string.
Variable String_of_number : number -> string.
Variable config : MonitorConfig.t.

Lemma blocks_length (pools : list Pool.t) :
  length (cardBlocks toFixed1 pools) = 2 * length pools.
Proof.
  unfold cardBlocks. induction pools as [|pool pools IH]; simpl; [reflexivity|].
  simpl in IH. rewrite IH. lia.
Qed.

Lemma blocks_lookup_even (pools : list Pool.t) (i : nat) (pool : Pool.t) :
  pools !! i = Some pool ->
  cardBlocks toFixed1 pools !! (2 * i)
  = Some (Markdown (formatPoolMarkdown toFixed1 pool)).
Proof.
  unfold cardBlocks. revert i.
  induction pools as [|p pools IH]; intros i Hi; [discriminate|].
  destruct i as [|i]; simpl in *.
  - congruence.
  - replace (i + S (i + 0)) with (S (2 * i)) by lia. simpl. apply IH, Hi.
Qed.

Lemma blocks_lookup_odd (pools : list Pool.t) (i : nat) :
  i < length pools -> cardBlocks toFixed1 pools !! (2 * i + 1) = Some Hr.
Proof.
  unfold cardBlocks. revert i.
  induction pools as [|p pools IH]; intros i Hi; simpl in Hi; [lia|].
  destruct i as [|i]; simpl.
  - reflexivity.
  - replace (i + S (i + 0) + 1) with (S (2 * i + 1)) by lia. simpl. apply IH. lia.
Qed.

Lemma card_elements (pools : list Pool.t) :
  elements (buildLarkCard toFixed1 String_of_number config pools)
  = take (2 * length pools - 1) (cardBlocks toFixed1 pools)
    ++ [filtersLine String_of_number config].
Proof.
  unfold buildLarkCard. cbn [elements]. fold (cardBlocks toFixed1 pools). f_equal.
  destruct pools as [|p pools]; [reflexivity|].
  rewrite removelast_firstn_len, blocks_length.
  replace (0 <? 2 * length (p :: pools))%nat with true
    by (symmetry; apply Nat.ltb_lt; simpl; lia).
  f_equal. simpl. lia.
Qed.

(** X11: the layout of the card. For [n >= 1] pools the card has [2n]
    elements: the block of pool [i] at position [2i], a rule between
    consecutive blocks (at the odd positions below [2n - 1]), and the line
    of the filters last; there is no rule before the first block or after
    the last one. For no pool the line of the filters is the only element.
    The title gives the number of pools. *)
Theorem buildLarkCard_layout (pools : list Pool.t) :
  let card := buildLarkCard toFixed1 String_of_number config pools in
  length (elements card) = Nat.max 1 (2 * length pools) /\
  last (elements card) = Some (filtersLine String_of_number config) /\
  (forall i pool, pools !! i = Some pool ->
     elements card !! (2 * i) = Some (Markdown (formatPoolMarkdown toFixed1 pool))) /\
  (forall i, i + 1 < length pools -> elements card !! (2 * i + 1) = Some Hr) /\
  (forall i, elements card !! i = Some Hr -> Nat.odd i = true /\ i + 1 < 2 * length pools) /\
  header_title card = ("Pools matched: " ++ pretty (length pools))%string.
Proof.
  intros card. unfold card. rewrite card_elements.
  assert (Hlen : length (take (2 * length pools - 1) (cardBlocks toFixed1 pools))
                 = 2 * length pools - 1).
  { rewrite length_take, blocks_length. lia. }
  split; [|split; [|split; [|split; [|split]]]].
  - rewrite length_app, Hlen. simpl. lia.
  - apply last_snoc.
  - intros i pool Hi. pose proof (lookup_lt_Some _ _ _ Hi) as Hlt.
    rewrite lookup_app_l by (rewrite Hlen; lia).
    rewrite lookup_take_lt by lia. apply blocks_lookup_even, Hi.
  - intros i Hi. rewrite lookup_app_l by (rewrite Hlen; lia).
    rewrite lookup_take_lt by lia. apply blocks_lookup_odd. lia.
  - intros i Hi.
    destruct (decide (i < 2 * length pools - 1)) as [Hlt|Hge].
    + rewrite lookup_app_l in Hi by (rewrite Hlen; lia).
      rewrite lookup_take_lt in Hi by lia.
      destruct (Nat.odd i) eqn:Hodd; [split; [reflexivity|lia]|].
      exfalso. rewrite <- Nat.negb_even in Hodd. apply negb_false_iff in Hodd.
      apply Nat.even_spec in Hodd as [j ->].
      destruct (pools !! j) as [pool|] eqn:Hj.
      * rewrite (blocks_lookup_even pools j pool Hj) in Hi. discriminate.
      * apply lookup_ge_None in Hj. lia.
    + exfalso. rewrite lookup_app_r in Hi by (rewrite Hlen; lia).
      rewrite Hlen in Hi.
      destruct (i - (2 * length pools - 1)) as [|m]; simpl in Hi; discriminate.
  - reflexivity.
Qed.

End CardLayout.

(** ** Formatting of amounts *)

Lemma Math_abs_opp (value : number) : Math_abs (SFopp value) = Math_abs value.
Proof. destruct value; reflexivity. Qed.

(** X12: the unit [formatKmb] prints depends on the magnitude of the value
    only. Either the value is printed as it is, and then its magnitude is
    not [>= 1000] (as for NaN); or it is divided by the largest of 1e9
    (B), 1e6 (M) and 1e3 (K) that its magnitude reaches. The negated value
    is printed with the same unit and divisor. *)
Theorem formatKmb_unit (toFixed1 : number -> string) (value : number) :
  let abs := Math_abs value in
  let scaled (v : number) (divisor : Z) (unit : string) : string :=
    (toFixed1 (number_div v (JS.of_Z divisor)) ++ unit)%string in
  (JS.ge abs (JS.of_Z 1000000000) = true /\
   formatKmb toFixed1 value = scaled value 1000000000%Z "B" /\
   formatKmb toFixed1 (SFopp value) = scaled (SFopp value) 1000000000%Z "B") \/
  (JS.ge abs (JS.of_Z 1000000000) = false /\ JS.ge abs (JS.of_Z 1000000) = true /\
   formatKmb toFixed1 value = scaled value 1000000%Z "M" /\
   formatKmb toFixed1 (SFopp value) = scaled (SFopp value) 1000000%Z "M") \/
  (JS.ge abs (JS.of_Z 1000000) = false /\ JS.ge abs (JS.of_Z 1000) = true /\
   formatKmb toFixed1 value = scaled value 1000%Z "K" /\
   formatKmb toFixed1 (SFopp value) = scaled (SFopp value) 1000%Z "K") \/
  (JS.ge abs (JS.of_Z 1000) = false /\
   formatKmb toFixed1 value = toFixed1 value /\
   formatKmb toFixed1 (SFopp value) = toFixed1 (SFopp value)).
Proof.
  intros abs scaled. unfold formatKmb, formatFixed. rewrite Math_abs_opp. fold abs.
  destruct (JS.ge abs (JS.of_Z 1000000000)) eqn:HB; [left; repeat split|right].
  destruct (JS.ge abs (JS.of_Z 1000000)) eqn:HM; [left; repeat split|right].
  destruct (JS.ge abs (JS.of_Z 1000)) eqn:HK; [left; repeat split|right].
  repeat split.
Qed.

(** 1500000 prints in M, -2500 in K, NaN and 999 as they are, the
    infinities in B. *)
Example formatKmb_samples :
  let tag (x : number) : string :=
    match x with
    | S754_nan => "nan" | S754_infinity _ => "inf" | S754_zero _ => "0"
    | S754_finite _ _ _ => "x"
    end in
  formatKmb tag (JS.of_Z 1500000) = "xM" /\
  formatKmb tag (JS.of_Z (-2500)) = "xK" /\
  formatKmb tag (JS.of_Z 999) = "x" /\
  formatKmb tag JS.NaN = "nan" /\
  formatKmb tag JS.Infinity = "infB".
Proof. vm_compute. repeat split; reflexivity. Qed.

(** ** The fetch loop *)

Lemma requested_step (page : number) (b : bool) (ms : number) (evs : list FetchEvent) :
  requested (HttpGet page :: (if b then [Delay ms] else []) ++ evs)
  = page :: requested evs.
Proof. destruct b; reflexivity. Qed.

Lemma waited_step (page : number) (b : bool) (ms : number) (evs : list FetchEvent) :
  waited (HttpGet page :: (if b then [Delay ms] else []) ++ evs)
  = (if b then 1 else 0) + waited evs.
Proof. destruct b; reflexivity. Qed.


Lemma page_pushed_Some (limit : nat) (r : PageResult) (more : list Pool.t) :
  page_pushed limit r = Some more <-> page_pools r = Some more /\ length more <= limit.
Proof.
  unfold page_pushed. destruct (page_pools r) as [l|].
  - destruct (Nat.ltb_spec limit (length l)) as [H|H]; split.
    + discriminate.
    + intros [[= ->] Hl]. lia.
    + intros [= ->]. split; [reflexivity|exact H].
    + intros [[= ->] _]. reflexivity.
  - split; [discriminate|intros [[=] _]].
Qed.

Lemma page_pushed_None (limit : nat) (r : PageResult) :
  page_pushed limit r = None <->
  page_pools r = None \/ exists more, page_pools r = Some more /\ limit < length more.
Proof.
  unfold page_pushed. destruct (page_pools r) as [l|].
  - destruct (Nat.ltb_spec limit (length l)) as [H|H]; split.
    + intros _. right. exists l. split; [reflexivity|exact H].
    + reflexivity.
    + discriminate.
    + intros [[=]|(more & [= <-] & Hl)]. lia.
  - split; [intros _; left; reflexivity|reflexivity].
Qed.

Lemma page_pushed_is_Some (limit : nat) (respond : number -> PageResult) (p : number) :
  is_Some (page_pushed limit (respond p)) <->
  is_Some (page_pools (respond p)) /\ length (contribution respond p) <= limit.
Proof.
  unfold contribution. split.
  - intros [more Hmore]. apply page_pushed_Some in Hmore as [Hp Hl].
    rewrite Hp. split; [eauto|exact Hl].
  - intros [[more Hp] Hl]. rewrite Hp in Hl. exists more.
    apply page_pushed_Some. split; assumption.
Qed.

Lemma page_pushed_contribution (limit : nat) (respond : number -> PageResult)
    (p : number) (more : list Pool.t) :
  page_pushed limit (respond p) = Some more -> contribution respond p = more.
Proof.
  intros H. apply page_pushed_Some in H as [Hp _]. unfold contribution.
  rewrite Hp. reflexivity.
Qed.

Section FetchLoop.
Variable config : MonitorConfig.t.
Variable respond : number -> PageResult.
Variable argumentLimit : nat.

Lemma fetchLoop_S (fuel : nat) (page : number) (acc : list Pool.t) :
  fetchLoop config respond argumentLimit (S fuel) page acc
  = if JS.le page (MonitorConfig.pages config) then
      match page_pushed argumentLimit (respond page) with
      | None => (FetchThrows, [HttpGet page])
      | Some more =>
          ((fetchLoop config respond argumentLimit fuel (JS.add page (JS.of_Z 1)) (acc ++ more)).1,
           HttpGet page ::
           (if JS.lt page (MonitorConfig.pages config) then [Delay (JS.of_Z 5000)] else [])
           ++ (fetchLoop config respond argumentLimit fuel (JS.add page (JS.of_Z 1))
                 (acc ++ more)).2)
      end
    else (FetchReturns acc, []).
Proof.
  cbn [fetchLoop]. destruct (JS.le _ _); [|reflexivity].
  destruct (page_pushed _ _); [|reflexivity].
  destruct (fetchLoop config respond argumentLimit fuel _ _). reflexivity.
Qed.

Lemma fetchLoop_requested (fuel : nat) (page : number) (acc : list Pool.t)
    (i : nat) (p : number) :
  requested (fetchLoop config respond argumentLimit fuel page acc).2 !! i = Some p ->
  p = pageAfter i page /\ JS.le p (MonitorConfig.pages config) = true /\ i < fuel.
Proof.
  revert page acc i. induction fuel as [|fuel IH]; intros page acc i.
  - discriminate.
  - rewrite fetchLoop_S.
    destruct (JS.le page (MonitorConfig.pages config)) eqn:Hle; [|discriminate].
    destruct (page_pushed argumentLimit (respond page)) as [more|]; cbn [snd].
    + rewrite requested_step. destruct i as [|i]; cbn.
      * intros [= <-]. repeat split; [exact Hle|lia].
      * intros Hi. destruct (IH _ _ i Hi) as (Hp & Hle' & Hlt).
        repeat split; [assumption..|lia].
    + destruct i as [|i]; cbn; [|discriminate].
      intros [= <-]. repeat split; [exact Hle|lia].
Qed.

Lemma fetchLoop_returns (fuel : nat) (page : number) (acc pools : list Pool.t) :
  (fetchLoop config respond argumentLimit fuel page acc).1 = FetchReturns pools ->
  let evs := (fetchLoop config respond argumentLimit fuel page acc).2 in
  Forall (fun p => is_Some (page_pushed argumentLimit (respond p))) (requested evs) /\
  pools = acc ++ concat (List.map (contribution respond) (requested evs)) /\
  JS.le (pageAfter (length (requested evs)) page) (MonitorConfig.pages config) = false /\
  waited evs
  = length (List.filter (fun p => JS.lt p (MonitorConfig.pages config)) (requested evs)).
Proof.
  revert page acc. induction fuel as [|fuel IH]; intros page acc.
  - discriminate.
  - rewrite fetchLoop_S.
    destruct (JS.le page (MonitorConfig.pages config)) eqn:Hle.
    + destruct (page_pushed argumentLimit (respond page)) as [more|] eqn:Hpage; [|discriminate].
      cbn [fst snd]. intros Hret.
      destruct (IH _ _ Hret) as (Hgood & Hpools & Hstop & Hwait).
      cbn zeta. rewrite requested_step, waited_step. cbn [length List.map concat pageAfter].
      repeat split.
      * constructor; [rewrite Hpage; eauto|exact Hgood].
      * rewrite (page_pushed_contribution _ _ _ _ Hpage), Hpools, <- app_assoc.
        reflexivity.
      * exact Hstop.
      * cbn [List.filter]. rewrite Hwait.
        destruct (JS.lt page (MonitorConfig.pages config)); reflexivity.
    + cbn. intros [= <-]. repeat split.
      * constructor.
      * rewrite app_nil_r. reflexivity.
      * exact Hle.
Qed.


Lemma fetchLoop_unfinished (fuel : nat) (page : number) (acc : list Pool.t) :
  (fetchLoop config respond argumentLimit fuel page acc).1 = FetchUnfinished ->
  length (requested (fetchLoop config respond argumentLimit fuel page acc).2) = fuel /\
  Forall (fun p => is_Some (page_pushed argumentLimit (respond p)))
         (requested (fetchLoop config respond argumentLimit fuel page acc).2).
Proof.
  revert page acc. induction fuel as [|fuel IH]; intros page acc.
  - intros _. split; [reflexivity|constructor].
  - rewrite fetchLoop_S.
    destruct (JS.le page (MonitorConfig.pages config)) eqn:Hle; [|discriminate].
    destruct (page_pushed argumentLimit (respond page)) as [more|] eqn:Hpage; [|discriminate].
    cbn [fst snd]. intros Hun. destruct (IH _ _ Hun) as [Hlen Hgood].
    rewrite requested_step. cbn [length]. split; [lia|].
    constructor; [rewrite Hpage; eauto|exact Hgood].
Qed.

End FetchLoop.

(** ** The page counter: integers as numbers *)

Section Counter.
Local Open Scope Z_scope.

Lemma digits2_size (q : positive) : digits2_pos q = Pos.size q.
Proof. induction q; simpl; congruence. Qed.

Lemma bits_pos (q : positive) : 1 <= bits q.
Proof. unfold bits. lia. Qed.

(** A number of [d] binary digits lies between [2^(d-1)] and [2^d]. *)
Lemma bits_bounds (q : positive) : 2 ^ (bits q - 1) <= Z.pos q < 2 ^ bits q.
Proof.
  unfold bits. rewrite digits2_size. split.
  - pose proof (Pos.size_le q) as H.
    assert (H' : (2 ^ Z.pos (Pos.size q) <= Z.pos q~0)).
    { rewrite <- Pos2Z.inj_pow. apply Pos2Z.pos_le_pos. exact H. }
    replace (Z.pos (Pos.size q)) with (Z.pos (Pos.size q) - 1 + 1) in H' by lia.
    rewrite Z.pow_add_r in H' by lia. lia.
  - pose proof (Pos.size_gt q) as H.
    rewrite <- Pos2Z.inj_pow. apply Pos2Z.pos_lt_pos. exact H.
Qed.

Lemma shiftLeft_Z (q : positive) (z : Z) :
  0 <= z -> Z.pos (shiftLeft q z) = Z.pos q * 2 ^ z.
Proof.
  destruct z as [|p|p]; cbn [shiftLeft]; intros H; [rewrite Z.pow_0_r; lia| |lia].
  change (Pos.iter xO q p) with (shift_pos p q).
  rewrite shift_pos_correct. change (Z.pow_pos 2 p) with (2 ^ Z.pos p). ring.
Qed.

Lemma bits_unique (q : positive) (d : Z) :
  2 ^ (d - 1) <= Z.pos q < 2 ^ d -> 1 <= d -> bits q = d.
Proof.
  intros [Hlo Hhi] Hd. pose proof (bits_bounds q) as [Hlo' Hhi']. pose proof (bits_pos q).
  destruct (Z.lt_trichotomy (bits q) d) as [Hlt|[Heq|Hgt]]; [|exact Heq|].
  - exfalso. assert (2 ^ bits q <= 2 ^ (d - 1)) by (apply Z.pow_le_mono_r; lia). lia.
  - exfalso. assert (2 ^ d <= 2 ^ (bits q - 1)) by (apply Z.pow_le_mono_r; lia). lia.
Qed.

Lemma bits_shiftLeft (q : positive) (z : Z) :
  0 <= z -> bits (shiftLeft q z) = bits q + z.
Proof.
  intros Hz. apply bits_unique; [|pose proof (bits_pos q); lia].
  rewrite shiftLeft_Z by exact Hz.
  pose proof (bits_bounds q) as [Hlo Hhi]. pose proof (bits_pos q).
  replace (bits q + z - 1) with (bits q - 1 + z) by lia.
  rewrite !Z.pow_add_r by lia.
  assert (0 < 2 ^ z) by (apply Z.pow_pos_nonneg; lia).
  split; nia.
Qed.

Lemma shiftLeft_inj_Z (a b : positive) : Z.pos a = Z.pos b -> a = b.
Proof. congruence. Qed.

Lemma shiftLeft_twice (q : positive) (a b : Z) :
  0 <= a -> 0 <= b -> shiftLeft (shiftLeft q a) b = shiftLeft q (a + b).
Proof.
  intros Ha Hb. apply shiftLeft_inj_Z. rewrite !shiftLeft_Z by lia.
  rewrite Z.pow_add_r by lia. ring.
Qed.

(** The alignment of a mantissa to a smaller exponent, and to one that is
    not smaller. *)
Lemma align_left (mx : positive) (ex ex' : Z) :
  ex' <= ex -> shl_align mx ex ex' = (shiftLeft mx (ex - ex'), ex').
Proof.
  intros H. unfold shl_align.
  destruct (ex' - ex) as [|d|d] eqn:Hd; [| lia |].
  - assert (ex' = ex) by lia. subst. rewrite Z.sub_diag. reflexivity.
  - replace (ex - ex') with (Z.pos d) by lia. reflexivity.
Qed.

Lemma align_none (mx : positive) (ex ex' : Z) :
  ex <= ex' -> shl_align mx ex ex' = (mx, ex).
Proof.
  intros H. unfold shl_align. destruct (ex' - ex) as [|d|d] eqn:Hd; try reflexivity. lia.
Qed.

Lemma iter_pos_eq {A} (f : A -> A) (p : positive) (x : A) :
  SpecFloat.iter_pos f p x = Pos.iter f x p.
Proof.
  revert x. induction p as [p IH|p IH|]; intros x; simpl.
  - rewrite !IH. rewrite <- !Pos.iter_swap. reflexivity.
  - rewrite !IH. reflexivity.
  - reflexivity.
Qed.

(** Shifting right what was shifted left loses nothing. *)
Lemma iter_shr (p : positive) :
  forall r, Pos.iter shr_1 (exactRecord (Pos.iter xO r p)) p = exactRecord r.
Proof.
  induction p as [|p IH] using Pos.peano_ind; intros r.
  - reflexivity.
  - rewrite !Pos.iter_succ, <- Pos.iter_swap.
    change (shr_1 (exactRecord (Pos.iter xO r p)~0)) with (exactRecord (Pos.iter xO r p)).
    apply IH.
Qed.

Lemma shr_exact (r : positive) (j e n : Z) :
  0 <= n <= j ->
  shr (exactRecord (shiftLeft r j)) e n = (exactRecord (shiftLeft r (j - n)), e + n).
Proof.
  intros Hn. destruct n as [|p|p]; [| |lia].
  - rewrite Z.sub_0_r, Z.add_0_r. reflexivity.
  - cbn [shr]. rewrite iter_pos_eq. f_equal.
    replace (shiftLeft r j) with (Pos.iter xO (shiftLeft r (j - Z.pos p)) p).
    + apply iter_shr.
    + change (Pos.iter xO (shiftLeft r (j - Z.pos p)) p)
        with (shiftLeft (shiftLeft r (j - Z.pos p)) (Z.pos p)).
      rewrite shiftLeft_twice by lia. f_equal. lia.
Qed.

(** Rounding an integer of at most 53 digits, scaled by a power of two,
    is exact: the mantissa is brought to 53 digits. *)
Lemma bra_round (r : positive) (j e : Z) :
  bits r <= 53 -> 0 <= j -> 53 <= bits r + j -> -1074 <= bits r + j + e - 53 <= 971 ->
  binary_round_aux 53 1024 false (Z.pos (shiftLeft r j)) e loc_Exact
  = S754_finite false (shiftLeft r (53 - bits r)) (e + j - (53 - bits r)).
Proof.
  intros Hd Hj Hdj He. unfold binary_round_aux.
  assert (Hs1 : shr_fexp 53 1024 (Z.pos (shiftLeft r j)) e loc_Exact
                = (exactRecord (shiftLeft r (53 - bits r)), e + j - (53 - bits r))).
  { unfold shr_fexp. cbn [Zdigits2 shr_record_of_loc]. fold (bits (shiftLeft r j)).
    rewrite bits_shiftLeft by lia. fold (exactRecord (shiftLeft r j)).
    replace (fexp 53 1024 (bits r + j + e) - e) with (bits r + j - 53)
      by (unfold fexp, emin; lia).
    rewrite shr_exact by lia. f_equal; [f_equal; f_equal; lia|lia]. }
  rewrite Hs1. cbn [exactRecord shr_m shr_r shr_s loc_of_shr_record round_nearest_even].
  assert (Hs2 : shr_fexp 53 1024 (Z.pos (shiftLeft r (53 - bits r)))
                         (e + j - (53 - bits r)) loc_Exact
                = (exactRecord (shiftLeft r (53 - bits r)), e + j - (53 - bits r))).
  { unfold shr_fexp. cbn [Zdigits2 shr_record_of_loc]. fold (bits (shiftLeft r (53 - bits r))).
    rewrite bits_shiftLeft by lia.
    replace (fexp 53 1024 (bits r + (53 - bits r) + (e + j - (53 - bits r)))
             - (e + j - (53 - bits r)))
      with 0 by (unfold fexp, emin; lia).
    reflexivity. }
  rewrite Hs2. cbn [exactRecord shr_m].
  replace (e + j - (53 - bits r) <=? 1024 - 53) with true by (symmetry; apply Z.leb_le; lia).
  reflexivity.
Qed.

(** The number of a positive integer below 2^53. *)
Lemma of_Z_pos (q : positive) :
  bits q <= 53 -> JS.of_Z (Z.pos q) = S754_finite false (shiftLeft q (53 - bits q)) (bits q - 53).
Proof.
  intros Hd. unfold JS.of_Z, JS.prec, JS.emax. cbn [binary_normalize]. unfold binary_round.
  fold (bits q). pose proof (bits_pos q).
  replace (fexp 53 1024 (bits q + 0)) with (bits q - 53) by (unfold fexp, emin; lia).
  rewrite align_left by lia. rewrite Z.sub_0_l.
  replace (- (bits q - 53)) with (53 - bits q) by lia.
  rewrite bra_round by lia. f_equal. lia.
Qed.

(** Integers below 2^53 compare as numbers the way they compare as
    integers. *)
Lemma compare_of_Z (a b : positive) :
  bits a <= 53 -> bits b <= 53 ->
  SFcompare (JS.of_Z (Z.pos a)) (JS.of_Z (Z.pos b)) = Some (Z.pos a ?= Z.pos b).
Proof.
  intros Ha Hb. rewrite !of_Z_pos by assumption. cbn [SFcompare]. f_equal.
  pose proof (bits_bounds a) as [Hla Hha]. pose proof (bits_bounds b) as [Hlb Hhb].
  pose proof (bits_pos a). pose proof (bits_pos b).
  destruct (Z.compare_spec (bits a - 53) (bits b - 53)) as [He|He|He].
  - change (Pos.compare_cont Eq) with Pos.compare.
    replace (bits b) with (bits a) by lia.
    rewrite (Pos2Z.inj_compare (shiftLeft a (53 - bits a)) (shiftLeft b (53 - bits a))).
    rewrite !shiftLeft_Z by lia.
    assert (0 < 2 ^ (53 - bits a)) by (apply Z.pow_pos_nonneg; lia).
    destruct (Z.compare_spec (Z.pos a) (Z.pos b)) as [Hab|Hab|Hab].
    + apply Z.compare_eq_iff. rewrite Hab. reflexivity.
    + apply Z.compare_lt_iff. nia.
    + apply Z.compare_gt_iff. nia.
  - symmetry. apply Z.compare_lt_iff.
    assert (2 ^ bits a <= 2 ^ (bits b - 1)) by (apply Z.pow_le_mono_r; lia). lia.
  - symmetry. apply Z.compare_gt_iff.
    assert (2 ^ bits b <= 2 ^ (bits a - 1)) by (apply Z.pow_le_mono_r; lia). lia.
Qed.

(** [x + 1] is exact on the integers below 2^53 - 1. *)
Lemma add_one (q : positive) :
  Z.pos q + 1 < 2 ^ 53 ->
  JS.add (JS.of_Z (Z.pos q)) (JS.of_Z 1) = JS.of_Z (Z.pos q + 1).
Proof.
  intros Hq.
  pose proof (bits_bounds q) as [Hlq Hhq]. pose proof (bits_pos q).
  assert (Hdq : bits q <= 53).
  { destruct (Z_le_gt_dec (bits q) 53) as [|Hgt]; [assumption|exfalso].
    assert (2 ^ 53 <= 2 ^ (bits q - 1)) by (apply Z.pow_le_mono_r; lia). lia. }
  replace (Z.pos q + 1) with (Z.pos (q + 1)) by lia.
  pose proof (bits_bounds (q + 1)) as [Hlq1 Hhq1]. pose proof (bits_pos (q + 1)).
  assert (Hdq1 : bits (q + 1) <= 53).
  { destruct (Z_le_gt_dec (bits (q + 1)) 53) as [|Hgt]; [assumption|exfalso].
    assert (2 ^ 53 <= 2 ^ (bits (q + 1) - 1)) by (apply Z.pow_le_mono_r; lia). lia. }
  assert (Hdq2 : 2 <= bits (q + 1)).
  { destruct (Z_le_gt_dec 2 (bits (q + 1))) as [|Hlt]; [assumption|exfalso].
    replace (bits (q + 1)) with 1 in Hhq1 by lia. change (2 ^ 1) with 2 in Hhq1. lia. }
  rewrite (of_Z_pos (q + 1)) by assumption.
  rewrite (of_Z_pos q) by assumption.
  change (JS.of_Z 1) with (S754_finite false 4503599627370496 (-52)).
  unfold JS.add, JS.prec, JS.emax. cbn [SFadd].
  replace (Z.min (bits q - 53) (-52)) with (-52) by lia.
  rewrite align_left by lia. rewrite (align_none _ (-52) (-52)) by lia.
  cbn [fst cond_Zopp].
  rewrite shiftLeft_twice by lia.
  replace (Z.pos (shiftLeft q (53 - bits q + (bits q - 53 - -52))) + 4503599627370496)
    with (Z.pos (shiftLeft (q + 1) 52)).
  2:{ rewrite !shiftLeft_Z by lia. replace (53 - bits q + (bits q - 53 - -52)) with 52 by lia.
      change (2 ^ 52) with 4503599627370496. lia. }
  cbn [binary_normalize]. unfold binary_round.
  fold (bits (shiftLeft (q + 1) 52)). rewrite bits_shiftLeft by lia.
  replace (fexp 53 1024 (bits (q + 1) + 52 + -52)) with (bits (q + 1) - 53)
    by (unfold fexp, emin; lia).
  rewrite align_none by lia.
  rewrite bra_round by lia. f_equal. lia.
Qed.

End Counter.

(** ** Page numbers *)

Section PageNumbers.
Local Open Scope Z_scope.

Lemma bits_le_53 (q : positive) : Z.pos q < 2 ^ 53 -> bits q <= 53.
Proof.
  intros Hq. pose proof (bits_bounds q) as [Hlo Hhi].
  destruct (Z_le_gt_dec (bits q) 53) as [|Hgt]; [assumption|exfalso].
  assert (2 ^ 53 <= 2 ^ (bits q - 1)) by (apply Z.pow_le_mono_r; lia). lia.
Qed.

Lemma Zpos_of_nat (i : nat) : (1 <= i)%nat -> Z.pos (Pos.of_nat i) = Z.of_nat i.
Proof.
  intros Hi. destruct i as [|i]; [lia|].
  rewrite <- Pos.of_nat_succ. reflexivity.
Qed.

Lemma pageNumber_pos (i : nat) :
  (1 <= i)%nat -> pageNumber i = JS.of_Z (Z.pos (Pos.of_nat i)).
Proof. intros Hi. unfold pageNumber. rewrite (Zpos_of_nat i Hi). reflexivity. Qed.

(** [page += 1] on an exact page number gives the next page number. *)
Lemma pageNumber_next (i : nat) :
  (1 <= i)%nat -> Z.of_nat i + 1 < 2 ^ 53 ->
  JS.add (pageNumber i) (JS.of_Z 1) = pageNumber (S i).
Proof.
  intros Hi Hlt. rewrite (pageNumber_pos i Hi), add_one.
  - unfold pageNumber. f_equal. rewrite (Zpos_of_nat i Hi). lia.
  - rewrite (Zpos_of_nat i Hi). exact Hlt.
Qed.

Lemma pageNumber_compare (a b : nat) :
  (1 <= a)%nat -> Z.of_nat a < 2 ^ 53 -> Z.of_nat b < 2 ^ 53 ->
  SFcompare (pageNumber a) (pageNumber b) = Some (Z.of_nat a ?= Z.of_nat b).
Proof.
  intros Ha Hla Hlb. rewrite (pageNumber_pos a Ha).
  destruct b as [|b].
  - change (pageNumber 0) with (S754_zero false).
    rewrite of_Z_pos by (apply bits_le_53; rewrite (Zpos_of_nat a Ha); exact Hla).
    cbn. f_equal. symmetry. apply Z.compare_gt_iff. lia.
  - rewrite (pageNumber_pos (S b)) by lia.
    rewrite compare_of_Z.
    + rewrite !Zpos_of_nat by lia. reflexivity.
    + apply bits_le_53. rewrite (Zpos_of_nat a Ha). exact Hla.
    + apply bits_le_53. rewrite Zpos_of_nat by lia. exact Hlb.
Qed.

Lemma pageNumber_le (a b : nat) :
  (1 <= a)%nat -> Z.of_nat a < 2 ^ 53 -> Z.of_nat b < 2 ^ 53 ->
  JS.le (pageNumber a) (pageNumber b) = (a <=? b)%nat.
Proof.
  intros Ha Hla Hlb. unfold JS.le, SFleb. rewrite pageNumber_compare by assumption.
  destruct (Nat.leb_spec a b) as [H|H];
    destruct (Z.compare_spec (Z.of_nat a) (Z.of_nat b)); try reflexivity; lia.
Qed.

Lemma pageNumber_lt (a b : nat) :
  (1 <= a)%nat -> Z.of_nat a < 2 ^ 53 -> Z.of_nat b < 2 ^ 53 ->
  JS.lt (pageNumber a) (pageNumber b) = (a <? b)%nat.
Proof.
  intros Ha Hla Hlb. unfold JS.lt, SFltb. rewrite pageNumber_compare by assumption.
  destruct (Nat.ltb_spec a b) as [H|H];
    destruct (Z.compare_spec (Z.of_nat a) (Z.of_nat b)); try reflexivity; lia.
Qed.

End PageNumbers.

(** ** [fetchPools] *)

(** X13: when [fetchPools] returns. Whatever the page count, the pages
    requested are the successive values of the counter from 1, each [<=] the
    page count, each answered with pools, and with no more of them than a
    call takes arguments; the result is the concatenation of what the pages
    contributed, in the order of the requests; the loop stopped because the
    next value of the counter is not [<=] the page count; and there is one
    wait for each requested page that is [<] the page count. *)
Theorem fetchPools_returns_in_order (config : MonitorConfig.t)
    (respond : number -> PageResult) (argumentLimit fuel : nat) (pools : list Pool.t) :
  (fetchPools config respond argumentLimit fuel).1 = FetchReturns pools ->
  let evs := (fetchPools config respond argumentLimit fuel).2 in
  (forall i p, requested evs !! i = Some p ->
     p = pageAfter i (JS.of_Z 1) /\
     JS.le p (MonitorConfig.pages config) = true /\
     is_Some (page_pools (respond p)) /\
     length (contribution respond p) <= argumentLimit) /\
  pools = concat (List.map (contribution respond) (requested evs)) /\
  JS.le (pageAfter (length (requested evs)) (JS.of_Z 1)) (MonitorConfig.pages config)
  = false /\
  waited evs
  = length (List.filter (fun p => JS.lt p (MonitorConfig.pages config)) (requested evs)).
Proof.
  intros Hret evs. unfold fetchPools in Hret, evs.
  destruct (fetchLoop_returns config respond argumentLimit fuel (JS.of_Z 1) [] pools Hret)
    as (Hgood & Hpools & Hstop & Hwait).
  fold evs in Hgood, Hpools, Hstop, Hwait.
  split; [|split; [exact Hpools|split; [exact Hstop|exact Hwait]]].
  intros i p Hi.
  destruct (fetchLoop_requested config respond argumentLimit fuel (JS.of_Z 1) [] i p Hi)
    as (Hp & Hle & _).
  split; [exact Hp|]. split; [exact Hle|].
  apply page_pushed_is_Some.
  rewrite Forall_forall in Hgood. apply Hgood, list_elem_of_lookup. eauto.
Qed.

Lemma fetchPools_returns_in_order_witness :
  let respond (p : number) :=
    PageBody (PoolsApiResponse.mk JS.zero ""
                (Some [samplePool "0xAA" p JS.zero JS.zero])) in
  requested (fetchPools defaultConfig respond 1000 6).2
  = [pageNumber 1; pageNumber 2; pageNumber 3; pageNumber 4; pageNumber 5] /\
  waited (fetchPools defaultConfig respond 1000 6).2 = 4%nat.
Proof.
  intros respond.
  destruct (fetchPools_returns_in_order defaultConfig respond 1000 6
              (List.map (fun i => samplePool "0xAA" (pageNumber i) JS.zero JS.zero)
                        [1; 2; 3; 4; 5]%nat) eq_refl) as (_ & _ & _ & Hwait).
  split; [reflexivity|]. rewrite Hwait. reflexivity.
Defined.



Section IntegerPages.
Variable config : MonitorConfig.t.
Variable respond : number -> PageResult.
Variable argumentLimit : nat.
Variable n : nat.
Hypothesis Hpages : MonitorConfig.pages config = pageNumber n.
Hypothesis Hsmall : (Z.of_nat n + 1 < 2 ^ 53)%Z.

Lemma fetchLoop_pages (r k fuel : nat) (acc : list Pool.t) :
  1 <= k -> k + r = n + 1 -> r < fuel ->
  (forall i, k <= i <= n -> is_Some (page_pushed argumentLimit (respond (pageNumber i)))) ->
  fetchLoop config respond argumentLimit fuel (pageNumber k) acc
  = (FetchReturns
       (acc ++ concat (List.map (fun i => contribution respond (pageNumber i)) (seq k r))),
     flat_map (fun i => HttpGet (pageNumber i) ::
                        (if (i <? n)%nat then [Delay (JS.of_Z 5000)] else []))
              (seq k r)).
Proof using Hpages Hsmall.
  revert k fuel acc. induction r as [|r IH]; intros k fuel acc Hk Hkr Hfuel Hgood.
  - destruct fuel as [|fuel]; [lia|]. rewrite fetchLoop_S, Hpages.
    rewrite pageNumber_le by lia.
    replace (k <=? n)%nat with false by (symmetry; apply Nat.leb_gt; lia).
    cbn. rewrite app_nil_r. reflexivity.
  - destruct fuel as [|fuel]; [lia|]. rewrite fetchLoop_S, Hpages.
    rewrite pageNumber_le, pageNumber_lt by lia.
    replace (k <=? n)%nat with true by (symmetry; apply Nat.leb_le; lia).
    destruct (Hgood k ltac:(lia)) as [more Hmore]. rewrite Hmore.
    rewrite pageNumber_next by lia.
    rewrite (IH (S k) fuel (acc ++ more)) by (try lia; intros i Hi; apply Hgood; lia).
    cbn [fst snd seq List.map concat flat_map].
    rewrite (page_pushed_contribution _ _ _ _ Hmore), <- app_assoc. reflexivity.
Qed.

Lemma fetchLoop_bad_page (r k b fuel : nat) (acc : list Pool.t) :
  1 <= k -> k + r = b -> b <= n -> r < fuel ->
  (forall i, k <= i < b -> is_Some (page_pushed argumentLimit (respond (pageNumber i)))) ->
  page_pushed argumentLimit (respond (pageNumber b)) = None ->
  fetchLoop config respond argumentLimit fuel (pageNumber k) acc
  = (FetchThrows,
     flat_map (fun i => [HttpGet (pageNumber i); Delay (JS.of_Z 5000)]) (seq k r)
     ++ [HttpGet (pageNumber b)]).
Proof using Hpages Hsmall.
  revert k fuel acc. induction r as [|r IH]; intros k fuel acc Hk Hkr Hb Hfuel Hgood Hbad.
  - destruct fuel as [|fuel]; [lia|]. rewrite fetchLoop_S, Hpages.
    rewrite pageNumber_le by lia.
    replace (k <=? n)%nat with true by (symmetry; apply Nat.leb_le; lia).
    replace k with b by lia. rewrite Hbad. reflexivity.
  - destruct fuel as [|fuel]; [lia|]. rewrite fetchLoop_S, Hpages.
    rewrite pageNumber_le, pageNumber_lt by lia.
    replace (k <=? n)%nat with true by (symmetry; apply Nat.leb_le; lia).
    replace (k <? n)%nat with true by (symmetry; apply Nat.ltb_lt; lia).
    destruct (Hgood k ltac:(lia)) as [more Hmore]. rewrite Hmore.
    rewrite pageNumber_next by lia.
    rewrite (IH (S k) fuel (acc ++ more)) by (try lia; try assumption;
                                                intros i Hi; apply Hgood; lia).
    reflexivity.
Qed.

End IntegerPages.

Lemma requested_trace (n : nat) (l : list nat) :
  requested (flat_map (fun i => HttpGet (pageNumber i) ::
                                (if (i <? n)%nat then [Delay (JS.of_Z 5000)] else [])) l)
  = List.map pageNumber l.
Proof.
  induction l as [|i l IH]; [reflexivity|].
  cbn [flat_map]. rewrite <- app_comm_cons, requested_step, IH. reflexivity.
Qed.

Lemma waited_trace (n r k : nat) :
  k + r = n + 1 ->
  waited (flat_map (fun i => HttpGet (pageNumber i) ::
                             (if (i <? n)%nat then [Delay (JS.of_Z 5000)] else []))
                   (seq k r))
  = r - 1.
Proof.
  revert k. induction r as [|r IH]; intros k Hk; [reflexivity|].
  cbn [seq flat_map]. rewrite <- app_comm_cons, waited_step, (IH (S k)) by lia.
  destruct (Nat.ltb_spec k n); lia.
Qed.

(** X15: a whole number of pages. When the page count is the integer
    [n] (with [n + 1] below 2^53, so that the counter is exact) and each of
    the pages 1 to [n] is answered with pools, no more of them than a call
    takes arguments, [fetchPools] ends, with any fuel above [n]: it requests
    exactly the pages 1, 2, ..., [n] in this order, waits after each page
    but the last ([n - 1] waits, none for [n = 0]), and returns the pools of
    the pages concatenated in page order. *)
Theorem fetchPools_integer_pages (config : MonitorConfig.t)
    (respond : number -> PageResult) (argumentLimit n fuel : nat) :
  MonitorConfig.pages config = pageNumber n ->
  (Z.of_nat n + 1 < 2 ^ 53)%Z ->
  (forall i, 1 <= i <= n ->
     is_Some (page_pools (respond (pageNumber i))) /\
     length (contribution respond (pageNumber i)) <= argumentLimit) ->
  n < fuel ->
  fetchPools config respond argumentLimit fuel
  = (FetchReturns
       (concat (List.map (fun i => contribution respond (pageNumber i)) (seq 1 n))),
     flat_map (fun i => HttpGet (pageNumber i) ::
                        (if (i <? n)%nat then [Delay (JS.of_Z 5000)] else []))
              (seq 1 n)) /\
  requested (fetchPools config respond argumentLimit fuel).2 = List.map pageNumber (seq 1 n) /\
  waited (fetchPools config respond argumentLimit fuel).2 = n - 1.
Proof.
  intros Hpages Hsmall Hgood Hfuel.
  assert (Heq : fetchPools config respond argumentLimit fuel
                = (FetchReturns
                     (concat (List.map (fun i => contribution respond (pageNumber i))
                                       (seq 1 n))),
                   flat_map (fun i => HttpGet (pageNumber i) ::
                                      (if (i <? n)%nat then [Delay (JS.of_Z 5000)] else []))
                            (seq 1 n))).
  { unfold fetchPools. change (JS.of_Z 1) with (pageNumber 1).
    apply (fetchLoop_pages config respond argumentLimit n Hpages Hsmall n 1 fuel []);
      [lia..|].
    intros i Hi. apply page_pushed_is_Some, Hgood. lia. }
  rewrite Heq. cbn [snd]. split; [reflexivity|]. split.
  - apply requested_trace.
  - apply waited_trace. lia.
Qed.

Lemma fetchPools_integer_pages_witness :
  let respond (p : number) :=
    PageBody (PoolsApiResponse.mk JS.zero ""
                (Some [samplePool "0xAA" p JS.zero JS.zero])) in
  requested (fetchPools defaultConfig respond 1 1000).2 = List.map pageNumber (seq 1 5) /\
  waited (fetchPools defaultConfig respond 1 1000).2 = 4.
Proof.
  intros respond.
  destruct (fetchPools_integer_pages defaultConfig respond 1 5 1000)
    as (_ & Hreq & Hwait);
    [reflexivity|reflexivity|intros i _; cbn; split; [eauto|lia]|lia|].
  split; [exact Hreq|exact Hwait].
Defined.

(** X16: the first bad page. When the page count is the integer [n] and
    page [b <= n] is the first whose answer carries no pools or more pools
    than a call takes arguments (each page before it carries pools, no more
    than that many), [fetchPools] throws, with any fuel from [b] on: it has
    requested the pages 1 to [b] in order, with a wait after each page
    before [b], and nothing follows the request for page [b]; the pages
    after [b] are never requested. *)
Theorem fetchPools_first_bad_page (config : MonitorConfig.t)
    (respond : number -> PageResult) (argumentLimit n b fuel : nat) :
  MonitorConfig.pages config = pageNumber n ->
  (Z.of_nat n + 1 < 2 ^ 53)%Z ->
  1 <= b <= n ->
  (forall i, 1 <= i < b ->
     is_Some (page_pools (respond (pageNumber i))) /\
     length (contribution respond (pageNumber i)) <= argumentLimit) ->
  (page_pools (respond (pageNumber b)) = None \/
   exists more, page_pools (respond (pageNumber b)) = Some more /\
                argumentLimit < length more) ->
  b <= fuel ->
  fetchPools config respond argumentLimit fuel
  = (FetchThrows,
     flat_map (fun i => [HttpGet (pageNumber i); Delay (JS.of_Z 5000)]) (seq 1 (b - 1))
     ++ [HttpGet (pageNumber b)]) /\
  fetched_of (fetchPools config respond argumentLimit fuel).1 = None.
Proof.
  intros Hpages Hsmall Hb Hgood Hbad Hfuel.
  assert (Heq : fetchPools config respond argumentLimit fuel
                = (FetchThrows,
                   flat_map (fun i => [HttpGet (pageNumber i); Delay (JS.of_Z 5000)])
                            (seq 1 (b - 1))
                   ++ [HttpGet (pageNumber b)])).
  { unfold fetchPools. change (JS.of_Z 1) with (pageNumber 1).
    apply (fetchLoop_bad_page config respond argumentLimit n Hpages Hsmall (b - 1) 1 b fuel []);
      [lia..| |apply page_pushed_None; exact Hbad].
    intros i Hi. apply page_pushed_is_Some, Hgood. lia. }
  rewrite Heq. split; reflexivity.
Qed.

Lemma fetchPools_first_bad_page_witness :
  let pool := samplePool "0xAA" JS.zero JS.zero JS.zero in
  let respond (p : number) :=
    if JS.strict_eq p (pageNumber 3)
    then PageBody (PoolsApiResponse.mk JS.zero "" (Some [pool; pool; pool]))
    else PageBody (PoolsApiResponse.mk JS.zero "" (Some [pool; pool])) in
  fetchPools defaultConfig respond 2 3
  = (FetchThrows,
     [HttpGet (pageNumber 1); Delay (JS.of_Z 5000);
      HttpGet (pageNumber 2); Delay (JS.of_Z 5000);
      HttpGet (pageNumber 3)]).
Proof.
  intros pool respond.
  destruct (fetchPools_first_bad_page defaultConfig respond 2 5 3 3) as (Heq & _);
    [reflexivity|reflexivity|lia| | |lia|exact Heq].
  - intros i Hi. assert (i = 1 \/ i = 2) as [-> | ->] by lia; cbn; split; eauto.
  - right. exists [pool; pool; pool]. split; [reflexivity|cbn; lia].
Defined.

(** X17: a page count below 1. When 1 is not [<=] the page count (0, a
    negative number, a fraction below 1), [fetchPools] returns the empty
    list without a single request, and the cycle that follows ends with
    nothing to notify: the service is as it was, nothing is posted and
    nothing is persisted. *)
Theorem no_pages_no_requests (config : MonitorConfig.t)
    (respond : number -> PageResult) (argumentLimit fuel : nat) :
  JS.le (JS.of_Z 1) (MonitorConfig.pages config) = false ->
  fuel <> 0 ->
  fetchPools config respond argumentLimit fuel = (FetchReturns [], []) /\
  forall (t : number) (s : Settle) (w : World),
    running w = false ->
    fetched s = fetched_of (fetchPools config respond argumentLimit fuel).1 ->
    runOnce config t s w
    = (w, None,
       [LogRunStart; CallFetchPools; LogFetched 0; LogMatched 0; LogAfterCooldown 0;
        LogNoPools; LogRunEnd (JS.sub (tEnd s) t)]).
Proof.
  intros Hle Hfuel.
  assert (Heq : fetchPools config respond argumentLimit fuel = (FetchReturns [], [])).
  { destruct fuel as [|fuel]; [contradiction|].
    unfold fetchPools. rewrite fetchLoop_S, Hle. reflexivity. }
  split; [exact Heq|]. intros t s w Hrun Hfetched. rewrite Heq in Hfetched.
  rewrite (runOnce_idle config t s w Hrun). cbn [settle resume].
  rewrite (after_fetch_empty config t s (mkWorld true (notifyState w) (disk w)) []
             Hfetched eq_refl).
  cbn. rewrite (world_idle_eta w Hrun). reflexivity.
Qed.

Lemma no_pages_no_requests_witness :
  let cfg := MonitorConfig.mk "" "8453" JS.zero (JS.of_Z 10) (JS.of_Z 3000)
               (JS.of_Z 1000) (JS.of_Z 100000) "https://hook" (JS.of_Z 86400000) "" in
  fetchPools cfg (fun _ => PageNotOk) 1000 1 = (FetchReturns [], []).
Proof.
  intros cfg.
  apply (proj1 (no_pages_no_requests cfg (fun _ => PageNotOk) 1000 1 eq_refl
                  ltac:(discriminate))).
Defined.

(** ** What is posted, and when records follow *)

Lemma filter_sublist {A} (f : A -> bool) (l : list A) : sublist (List.filter f l) l.
Proof.
  induction l as [|x l IH]; cbn; [constructor|].
  destruct (f x); [apply sublist_skip|apply sublist_cons]; exact IH.
Qed.

(** X18: what is posted is exactly what passed. Whenever the segment that
    follows [fetchPools] posts a batch to the webhook, a webhook is
    configured, the batch is not empty, and a pool is in the batch if and
    only if it was fetched, passes the threshold filter and passes the
    cooldown test against the map as it is; the batch keeps the order of
    the fetched pools. An empty batch is never posted. *)
Theorem posted_batch_exact (config : MonitorConfig.t) (startedAt : number)
    (s : Settle) (w : World) (batch : list Pool.t) :
  In (PostWebhook batch) (after_fetch config startedAt s w).2 ->
  exists pools : list Pool.t,
    fetched s = Some pools /\
    batch = applyCooldown config (tCooldown s) (notifyState w)
                          (List.filter (matches config) pools) /\
    batch <> [] /\
    MonitorConfig.larkWebhookUrl config <> "" /\
    sublist batch pools /\
    forall pool : Pool.t,
      In pool batch <->
      In pool pools /\ matches config pool = true /\
      cooldownKeep config (tCooldown s) (notifyState w) pool = true.
Proof.
  unfold after_fetch. destruct (fetched s) as [pools|]; cbn.
  - cbv zeta.
    set (deduped := applyCooldown config (tCooldown s) (notifyState w)
                                  (List.filter (matches config) pools)).
    destruct (length deduped =? 0)%nat eqn:Hlen.
    + cbn. intros [H|[H|[H|[H|[H|[]]]]]]; discriminate.
    + destruct (String.eqb_spec (MonitorConfig.larkWebhookUrl config) "") as [Hurl|Hurl].
      * cbn. intros [H|[H|[H|[H|[H|[H|[]]]]]]]; discriminate.
      * cbn. intros [H|[H|[H|[H|[]]]]]; try discriminate.
        injection H as <-. exists pools. split; [reflexivity|]. split; [reflexivity|].
        split; [intros He; rewrite He in Hlen; discriminate|]. split; [exact Hurl|].
        split.
        -- unfold deduped, applyCooldown.
           transitivity (List.filter (matches config) pools); apply filter_sublist.
        -- intros pool. unfold deduped. rewrite applyCooldown_In, filter_In. tauto.
  - intros [H|[H|[]]]; discriminate.
Qed.

Lemma posted_batch_exact_witness :
  let cfg := configWith "https://hook" (JS.of_Z 86400000) in
  let A := samplePool "0xAA" (JS.of_Z 4000) (JS.of_Z 2000) (JS.of_Z 150000) in
  let B := samplePool "0xBB" (JS.of_Z 10) (JS.of_Z 2000) (JS.of_Z 150000) in
  let s := mkSettle (Some [B; A]) WebhookOk None JS.zero JS.zero JS.zero in
  exists pools,
    fetched s = Some pools /\
    [A] = applyCooldown cfg (tCooldown s) ∅ (List.filter (matches cfg) pools).
Proof.
  intros cfg A B s.
  destruct (posted_batch_exact cfg JS.zero s (idle ∅ emptyDisk) [A])
    as (pools & Hf & Hb & _).
  - cbn. right. right. right. left. reflexivity.
  - exists pools. split; [exact Hf|exact Hb].
Defined.

(** X19: with a webhook configured, a cycle changes the notify-state map
    only if it posted a batch and the webhook answered ok, and then the
    map is the old one with the records of that batch, whether persisting
    succeeds or not. *)
Theorem records_only_after_ok_post (config : MonitorConfig.t) (t : number)
    (s : Settle) (w : World) :
  MonitorConfig.larkWebhookUrl config <> "" ->
  notifyState (runOnce config t s w).1.1 <> notifyState w ->
  webhook s = WebhookOk /\
  exists batch : list Pool.t,
    In (PostWebhook batch) (runOnce config t s w).2 /\
    notifyState (runOnce config t s w).1.1
    = recordNotified (tNotified s) batch (notifyState w).
Proof.
  intros Hurl. unfold runOnce, runOnce_enter.
  destruct (running w); [intros []; reflexivity|].
  cbn [settle resume]. unfold after_fetch.
  destruct (fetched s) as [pools|]; [|intros []; reflexivity].
  cbv zeta.
  set (deduped := applyCooldown config (tCooldown s) _ _).
  destruct (length deduped =? 0)%nat; [intros []; reflexivity|].
  destruct (String.eqb_spec (MonitorConfig.larkWebhookUrl config) "") as [He|_];
    [contradiction|].
  cbn [settle resume]. unfold after_webhook.
  destruct (webhook s); [|intros []; reflexivity..].
  unfold after_notify. cbn [settle resume]. unfold after_persist. cbn.
  intros _. split; [reflexivity|]. exists deduped.
  destruct (fsFault s) as [[]|]; cbn; split; try reflexivity; tauto.
Qed.

Lemma records_only_after_ok_post_witness :
  let cfg := configWith "https://hook" (JS.of_Z 86400000) in
  let t0 := JS.of_Z 1700000000000 in
  let A := samplePool "0xAA" (JS.of_Z 4000) (JS.of_Z 2000) (JS.of_Z 150000) in
  let s := mkSettle (Some [A]) WebhookOk None t0 t0 t0 in
  webhook s = WebhookOk.
Proof.
  intros cfg t0 A s.
  apply (records_only_after_ok_post cfg t0 s (idle ∅ emptyDisk)); [discriminate|].
  intros H.
  assert (Hl : notifyState (runOnce cfg t0 s (idle ∅ emptyDisk)).1.1 !! "0xaa"
               = notifyState (idle ∅ emptyDisk) !! "0xaa") by (rewrite H; reflexivity).
  vm_compute in Hl. discriminate.
Defined.
